(** * accessibility-checker: the scan endpoint and the report view

    A shallow embedding of the two source files of the repository:

    - the Express server ([app.post('/api/test')], [runAxe], the summary),
    - the React component [AccessibilityTestingApp]
      ([getAISolution], [getTargetAudience], [performAccessibilityTest],
      [handleGetSolution] and the per-node rendering loop).

    JavaScript objects whose fields may be missing are records with
    [option] fields, objects used as dictionaries are [gmap string _],
    exceptions are the [Thrown] branch of a small effect monad, and the
    outside world (the URL parser, the two scanners, the key endpoint and
    the chat-completion service) is a set of oracles. *)

From Stdlib Require Import String Ascii List Arith Bool Lia DecimalString.
From Stdlib Require Import DecimalNat.
From stdpp Require Import base strings gmap list.

Local Open Scope string_scope.
Local Open Scope list_scope.
Local Open Scope nat_scope.

(** ** JavaScript strings and truthiness

    A string is its sequence of code units; a character of [string]
    stands for one code unit. *)

Module JS.

(** A string is falsy exactly when it is empty. *)
Definition truthy (s : string) : bool :=
  match s with
  | EmptyString => false
  | String _ _ => true
  end.

(** [undefined] and [null] are falsy too. *)
Definition truthy_opt (o : option string) : bool :=
  match o with
  | Some s => truthy s
  | None => false
  end.

(** [a || d] for a possibly missing string [a] and a string [d]. *)
Definition or_string (a : option string) (d : string) : string :=
  match a with
  | Some s => if truthy s then s else d
  | None => d
  end.

(** [a || b] when both sides may be missing: the left operand when it is
    truthy, otherwise the right operand whatever it is. *)
Definition or_opt (a b : option string) : option string :=
  if truthy_opt a then a else b.

(** [n || 0] for a possibly missing number. *)
Definition or_zero (n : option nat) : nat := default 0 n.

(** Template interpolation of a non-negative integer. *)
Definition of_nat (n : nat) : string :=
  NilZero.string_of_uint (Nat.to_uint n).

(** [s.substring(0, n)] *)
Definition substring0 (n : nat) (s : string) : string :=
  String.substring 0 n s.

End JS.

(** ** Scanner records *)

(** An affected node of a violation, as axe-core reports it and as the
    component builds it for pa11y issues. *)
Record Node := {
  target : option string;
  html : option string
}.

(** A violation: the shape of axe-core's records, which is also the shape
    the component normalises pa11y issues to.  [v_context] and
    [v_selector] are the fields the view reads when it treats the
    violation itself as its only node. *)
Record Violation := {
  v_id : string;
  v_description : string;
  v_impact : option string;
  v_nodes : option (list Node);
  v_context : option string;
  v_selector : option string
}.

Record Pass := {
  p_id : string;
  p_description : string
}.

(** A pa11y issue. *)
Record Issue := {
  code : string;
  message : string;
  type : string;
  selector : string;
  context : string
}.

(** What [processedResults.axe] holds: axe-core's own result object, or
    the sentinel the endpoint builds when the run was rejected. *)
Record AxeResults := {
  axe_error : option string;
  axe_details : option string;
  axe_violations : list Violation;
  axe_passes : list Pass
}.

(** What [processedResults.pa11y] holds.  pa11y's own result object has
    no [passes] field; the sentinel has an empty one. *)
Record Pa11yResults := {
  pa11y_error : option string;
  pa11y_details : option string;
  pa11y_issues : list Issue;
  pa11y_passes : option (list Pass)
}.

(** One entry of the array [Promise.allSettled] resolves to.  A rejection
    carries [reason?.message]. *)
Inductive Settled (A : Type) : Type :=
| fulfilled (value : A)
| rejected (reason_message : option string).

Arguments fulfilled {A} value.
Arguments rejected {A} reason_message.

(** ** The server: [POST /api/test] *)

Module Server.

Inductive Call : Type :=
| RunAxe (url : string)
| RunPa11y (url : string).

Inductive Body : Type :=
| ErrorBody (error : string)
| Report (axe : AxeResults) (pa11y : Pa11yResults) (summary : gmap string nat)
| Failure (error details : string).

Record Response := {
  status : nat;
  body : Body
}.

Definition processed_axe (axeResults : Settled AxeResults) : AxeResults :=
  match axeResults with
  | fulfilled value => value
  | rejected reason =>
      {| axe_error := Some "Axe-core test failed";
         axe_details := Some (JS.or_string reason "Unknown error");
         axe_violations := [];
         axe_passes := [] |}
  end.

Definition processed_pa11y (pa11yResults : Settled Pa11yResults) : Pa11yResults :=
  match pa11yResults with
  | fulfilled value => value
  | rejected reason =>
      {| pa11y_error := Some "Pa11y test failed";
         pa11y_details := Some (JS.or_string reason "Unknown error");
         pa11y_issues := [];
         pa11y_passes := Some [] |}
  end.

(** [axe.error ? 0 : axe.violations?.filter(v => v.impact === sev).length || 0] *)
Definition axe_count (sev : string) (axe : AxeResults) : nat :=
  if JS.truthy_opt (axe_error axe) then 0
  else length (filter (λ v, v_impact v = Some sev) (axe_violations axe)).

(** [pa11y.error ? 0 : pa11y.issues?.filter(i => i.type === ty).length || 0] *)
Definition pa11y_count (ty : string) (pa : Pa11yResults) : nat :=
  if JS.truthy_opt (pa11y_error pa) then 0
  else length (filter (λ i, type i = ty) (pa11y_issues pa)).

(** The [summary] object literal: three keys. *)
Definition summary (axe : AxeResults) (pa : Pa11yResults) : gmap string nat :=
  <["critical" := axe_count "critical" axe + pa11y_count "error" pa]>
  (<["serious" := axe_count "serious" axe + pa11y_count "warning" pa]>
  (<["moderate" := axe_count "moderate" axe + pa11y_count "notice" pa]> ∅)).

Section Endpoint.

(** [new URL(url)] returns instead of throwing. *)
Variable URL_parses : string → bool.
(** How the two scanner promises settle for a given address. *)
Variable runAxe : string → Settled AxeResults.
Variable pa11y : string → Settled Pa11yResults.

(** [Promise.allSettled([runAxe(url), pa11y(url, ...)])]: both engines
    are started, and both outcomes are awaited. *)
Definition allSettled (url : string)
  : list Call * (Settled AxeResults * Settled Pa11yResults) :=
  ([RunAxe url; RunPa11y url], (runAxe url, pa11y url)).

(** The handler, from the parsed request body to the engines it
    started and the response it sent.  [url] is [req.body.url].
    These are the statements of the [try] block once [req.body] is an
    object; with the record types above none of them throws.  The outer
    [catch] is part of [handler] below. *)
Definition post_api_test (url : option string) : list Call * Response :=
  match url with
  | None => ([], {| status := 400; body := ErrorBody "URL is required" |})
  | Some u =>
      if negb (JS.truthy u) then
        ([], {| status := 400; body := ErrorBody "URL is required" |})
      else if negb (URL_parses u) then
        ([], {| status := 400; body := ErrorBody "Invalid URL format" |})
      else
        let '(calls, (axeResults, pa11yResults)) := allSettled u in
        let axe := processed_axe axeResults in
        let pa := processed_pa11y pa11yResults in
        (calls, {| status := 200; body := Report axe pa (summary axe pa) |})
  end.

(** The whole handler, from [req.body].  The body is [None] when no
    parser filled it in: the destructuring [const { url } = req.body]
    then throws, and the outer [catch] answers 500 with the message of
    that error.  With a body, [req.body.url] is handed to the statements
    above. *)
Definition handler (body : option (option string)) : list Call * Response :=
  match body with
  | None =>
      ([], {| status := 500;
              body := Failure "Failed to run accessibility test"
                        "Cannot destructure property 'url' of 'req.body' as it is undefined." |})
  | Some url => post_api_test url
  end.

End Endpoint.

End Server.

(** ** Effects of the component

    The asynchronous functions of the component change two pieces of
    React state through functional updaters and may throw.  A computation
    is the list of updates it dispatched, in order, and how it ended.
    Each updater is taken with the value its closure holds when it is
    dispatched.  The debugging log ([addLog]) and the flags [isLoading],
    [error] and [results] are left out: none of the functions below reads
    them. *)

Inductive Outcome (A : Type) : Type :=
| Returned (a : A)
| Thrown (message : string).

Arguments Returned {A} a.
Arguments Thrown {A} message.

Inductive Effect : Type :=
| SetSolutions (key value : string)
| SetLoadingSolutions (key : string) (value : bool).

Definition M (A : Type) : Type := (list Effect * Outcome A)%type.

Definition ret {A} (a : A) : M A := ([], Returned a).

Definition throw {A} (message : string) : M A := ([], Thrown message).

Definition await {A} (o : Outcome A) : M A := ([], o).

Definition bind {A B} (m : M A) (k : A → M B) : M B :=
  match m with
  | (es, Returned a) => let '(es', r) := k a in (es ++ es', r)
  | (es, Thrown message) => (es, Thrown message)
  end.

Notation "'let*' x := m 'in' k" := (bind m (λ x, k))
  (at level 10, x name, m at level 100, k at level 200).
Notation "m ;;; k" := (bind m (λ _, k))
  (at level 100, k at level 200, right associativity).

(** [try { m } catch (e) { handler(e.message) }] *)
Definition try_catch {A} (m : M A) (handler : string → M A) : M A :=
  match m with
  | (es, Thrown message) => let '(es', r) := handler message in (es ++ es', r)
  | (es, Returned a) => (es, Returned a)
  end.

(** [try { m } finally { f }], for an [f] that returns normally. *)
Definition finally {A} (m : M A) (f : list Effect) : M A :=
  (fst m ++ f, snd m).

Definition setSolutions (key value : string) : M unit :=
  ([SetSolutions key value], Returned tt).

(** The React state the effects act on. *)
Record State := {
  solutions : gmap string string;
  loadingSolutions : gmap string bool
}.

Definition apply (σ : State) (e : Effect) : State :=
  match e with
  | SetSolutions key value =>
      {| solutions := <[key := value]> (solutions σ);
         loadingSolutions := loadingSolutions σ |}
  | SetLoadingSolutions key value =>
      {| solutions := solutions σ;
         loadingSolutions := <[key := value]> (loadingSolutions σ) |}
  end.

Definition run (σ : State) (es : list Effect) : State := foldl apply σ es.

(** The successive states the view can render while [es] is applied. *)
Fixpoint history (σ : State) (es : list Effect) : list State :=
  match es with
  | [] => []
  | e :: es' => apply σ e :: history (apply σ e) es'
  end.

(** The keys of the remediation cache a computation wrote, in order. *)
Definition written_keys (es : list Effect) : list string :=
  omap (λ e, match e with SetSolutions key _ => Some key | _ => None end) es.

(** The values a computation stored under [key], in order. *)
Definition observed (key : string) (es : list Effect) : list string :=
  omap (λ e, match e with
             | SetSolutions k value => if decide (k = key) then Some value else None
             | _ => None
             end) es.

(** ** The remediation client: [getAISolution] *)

(** The response of [GET /api/groq-key] as the component reads it. *)
Record KeyResponse := {
  ok : bool;
  key_status : nat;
  json_apiKey : Outcome (option string)
}.

(** A streamed completion: [chunk.choices[0]?.delta?.content] of every
    chunk received, and the message of the error that interrupted the
    iteration, if one did.  A request that is rejected before it yields
    anything is a stream with no chunk and a failure. *)
Record Stream := {
  chunks : list (option string);
  failure : option string
}.

(** The services the component talks to. *)
Record World := {
  fetch_groq_key : Outcome KeyResponse;
  (** [groq.chat.completions.create({..., stream: true})], by credential
      and prompt *)
  create_stream : string → string → Stream;
  (** the same request with [stream: false]:
      [response.choices[0]?.message?.content] *)
  create_complete : string → string → Outcome (option string)
}.

Definition nl : string := String (ascii_of_nat 10) EmptyString.

(** The template literal [prompt]; a missing [html] prints as
    [undefined]. *)
Definition prompt (issue description : string) (html : option string) : string :=
  "Provide a concise solution for this accessibility issue without any reasoning steps or thinking process. Just provide:" +:+ nl +:+
  "      " +:+ nl +:+
  "      1. The specific fix (actionable solution)" +:+ nl +:+
  "      2. Code examples if applicable" +:+ nl +:+
  "      3. Why this fix is important" +:+ nl +:+
  "      4. Who it helps most" +:+ nl +:+
  "      " +:+ nl +:+
  "      Issue: " +:+ issue +:+ nl +:+
  "      Description: " +:+ description +:+ nl +:+
  "      HTML Element: " +:+ default "undefined" html.

(** The [for await] loop over the stream, with the buffer
    [streamedContent] as accumulator. *)
Fixpoint stream_loop (solutionKey streamedContent : string)
    (cs : list (option string)) (failure : option string) : M string :=
  match cs with
  | [] =>
      match failure with
      | None => ret streamedContent
      | Some message => throw message
      end
  | chunk :: rest =>
      let content := JS.or_string chunk "" in
      let streamedContent := streamedContent +:+ content in
      setSolutions solutionKey streamedContent ;;;
      stream_loop solutionKey streamedContent rest failure
  end.

Definition getAISolution (w : World) (issue description : string)
    (html : option string) : M string :=
  let solutionKey := issue +:+ "-" +:+ JS.substring0 20 description in
  try_catch
    (let* keyResponse := await (fetch_groq_key w) in
     if negb (ok keyResponse) then
       throw ("Failed to get Groq API key: " +:+ JS.of_nat (key_status keyResponse))
     else
       let* apiKey := await (json_apiKey keyResponse) in
       if negb (JS.truthy_opt apiKey) then
         throw "No Groq API key returned from backend"
       else
         let apiKey := default "" apiKey in
         let prompt := prompt issue description html in
         try_catch
           (let streamResponse := create_stream w apiKey prompt in
            stream_loop solutionKey "" (chunks streamResponse) (failure streamResponse))
           (λ streamError,
              let* response := await (create_complete w apiKey prompt) in
              let content := JS.or_string response "No response generated" in
              setSolutions solutionKey content ;;;
              ret content))
    (λ error, throw ("Failed to get AI solution: " +:+ error)).

(** ** The audience classifier: [getTargetAudience] *)

(** The own properties of the object literal [audienceMap]. *)
Definition audienceMap : gmap string (list string) :=
  list_to_map [
    ("color-contrast", ["Visual impairments"; "Low vision"; "Color blindness"]);
    ("image-alt", ["Blind users"; "Screen reader users"; "Low bandwidth users"]);
    ("label", ["Screen reader users"; "Keyboard users"; "Cognitive disabilities"]);
    ("heading-order", ["Screen reader users"; "Cognitive disabilities"; "Navigation difficulties"]);
    ("link-name", ["Screen reader users"; "Cognitive disabilities"; "Motor disabilities"]);
    ("button-name", ["Screen reader users"; "Voice control users"; "Cognitive disabilities"]);
    ("aria-required-attr", ["Screen reader users"; "Assistive technology users"]);
    ("keyboard-navigation", ["Motor disabilities"; "Keyboard-only users"; "Screen reader users"]);
    ("focus-management", ["Keyboard users"; "Motor disabilities"; "Cognitive disabilities"]);
    ("landmark-roles", ["Screen reader users"; "Navigation difficulties"; "Cognitive disabilities"]);
    ("document-title", ["Screen reader users"; "Search engine users"; "Cognitive disabilities"]);
    ("html-has-lang", ["Screen reader users"; "Translation software users"]);
    ("bypass", ["Keyboard users"; "Screen reader users"; "Motor disabilities"]);
    ("page-has-heading-one", ["Screen reader users"; "SEO"; "Cognitive disabilities"]);
    ("list", ["Screen reader users"; "Cognitive disabilities"]);
    ("definition-list", ["Screen reader users"; "Cognitive disabilities"]);
    ("dlitem", ["Screen reader users"; "Cognitive disabilities"]);
    ("listitem", ["Screen reader users"; "Cognitive disabilities"]);
    ("meta-refresh", ["Cognitive disabilities"; "Motor disabilities"; "Seizure disorders"]);
    ("meta-viewport", ["Mobile users"; "Zoom users"; "Low vision users"]);
    ("region", ["Screen reader users"; "Keyboard navigation users"]);
    ("skip-link", ["Keyboard users"; "Screen reader users"]);
    ("tabindex", ["Keyboard users"; "Screen reader users"]);
    ("valid-lang", ["Screen reader users"; "Translation software users"])
  ].

(** The property names every object literal inherits from
    [Object.prototype]. *)
Definition Object_prototype : list string := [
  "constructor"; "hasOwnProperty"; "isPrototypeOf"; "propertyIsEnumerable";
  "toLocaleString"; "toString"; "valueOf"; "__proto__";
  "__defineGetter__"; "__defineSetter__"; "__lookupGetter__"; "__lookupSetter__"
].

(** What the member access [audienceMap[issue]] evaluates to. *)
Inductive Audience : Type :=
| absent
| labels (ls : list string)
| inherited (property : string).

(** [audienceMap[issue]]: the own property when there is one, otherwise
    the property found on the prototype, otherwise [undefined]. *)
Definition getTargetAudience (issue : string) : Audience :=
  match audienceMap !! issue with
  | Some ls => labels ls
  | None =>
      if bool_decide (issue ∈ Object_prototype) then inherited issue
      else absent
  end.

(** ** Formatting the report: [performAccessibilityTest] *)

Record FormattedResults := {
  violations : list Violation;
  passes : list Pass;
  results_summary : option (gmap string nat)
}.

(** The object the component builds from one pa11y issue. *)
Definition normalize (issue : Issue) : Violation :=
  {| v_id := code issue;
     v_description := message issue;
     v_impact :=
       Some (if decide (type issue = "error") then "critical"
             else if decide (type issue = "warning") then "serious"
             else "moderate");
     v_nodes := Some [ {| target := Some (selector issue);
                          html := Some (context issue) |} ];
     v_context := None;
     v_selector := None |}.

(** [formattedResults], from the parsed body [data] of a report. *)
Definition formattedResults (axe : AxeResults) (pa : Pa11yResults)
    (summary : gmap string nat) : FormattedResults :=
  {| violations := axe_violations axe ++ map normalize (pa11y_issues pa);
     passes := axe_passes axe ++ default [] (pa11y_passes pa);
     results_summary := Some summary |}.

(** [response.ok] *)
Definition response_ok (r : Server.Response) : bool :=
  ((200 <=? Server.status r) && (Server.status r <=? 299))%nat.

(** The function from the response of [POST /api/test] on.  A [fetch]
    that rejects is [Thrown]. *)
Definition performAccessibilityTest (response : Outcome Server.Response)
    : Outcome FormattedResults :=
  match response with
  | Thrown message => Thrown ("Accessibility testing failed: " +:+ message)
  | Returned r =>
      if negb (response_ok r) then
        Thrown ("Accessibility testing failed: API error: "
                +:+ JS.of_nat (Server.status r))
      else
        match Server.body r with
        | Server.Report axe pa summary =>
            Returned (formattedResults axe pa summary)
        | Server.ErrorBody _ | Server.Failure _ _ =>
            Thrown ("Accessibility testing failed: "
                    +:+ "Cannot read properties of undefined (reading 'violations')")
        end
  end.

(** The four counters of the summary panel:
    [results.summary?.critical || 0] and its three siblings. *)
Definition displayed (results : FormattedResults) (severity : string) : nat :=
  JS.or_zero (results_summary results ≫= λ s, s !! severity).

(** ** Requesting and showing a remediation *)

(** [`${violation.id}-${nodeIndex}`] *)
Definition solutionKey (violation : Violation) (nodeIndex : nat) : string :=
  v_id violation +:+ "-" +:+ JS.of_nat nodeIndex.

(** [violation.nodes?.[nodeIndex]?.html || violation.context] *)
Definition node_html (violation : Violation) (nodeIndex : nat) : option string :=
  JS.or_opt (v_nodes violation ≫= λ ns, ns !! nodeIndex ≫= html)
            (v_context violation).

(** [handleGetSolution], started from a render in which the remediation
    cache is [rendered]. *)
Definition handleGetSolution (w : World) (rendered : gmap string string)
    (violation : Violation) (nodeIndex : nat) : M unit :=
  let solutionKey := solutionKey violation nodeIndex in
  if JS.truthy_opt (rendered !! solutionKey) then ret tt
  else
    ([SetLoadingSolutions solutionKey true], Returned tt) ;;;
    finally
      (try_catch
         (let* solution := getAISolution w (v_id violation)
                             (v_description violation)
                             (node_html violation nodeIndex) in
          setSolutions solutionKey solution)
         (λ error,
            setSolutions solutionKey ("Error getting solution: " +:+ error)))
      [SetLoadingSolutions solutionKey false].

(** What the per-node loop treats as a node: a member of
    [violation.nodes], or the violation itself. *)
Record NodeView := {
  nv_html : option string;
  nv_context : option string;
  nv_target : option string;
  nv_selector : option string
}.

Definition of_node (n : Node) : NodeView :=
  {| nv_html := html n; nv_context := None;
     nv_target := target n; nv_selector := None |}.

Definition of_violation (v : Violation) : NodeView :=
  {| nv_html := None; nv_context := v_context v;
     nv_target := None; nv_selector := v_selector v |}.

(** [violation.nodes || [violation]]: an array is truthy whatever its
    length. *)
Definition display_nodes (violation : Violation) : list NodeView :=
  match v_nodes violation with
  | Some ns => map of_node ns
  | None => [of_violation violation]
  end.

(** What one iteration of the per-node loop computes before it builds its
    markup. *)
Record NodeItem := {
  item_index : nat;
  item_key : string;
  item_audience : Audience;
  item_html : option string;
  item_target : option string;
  item_solution : option string
}.

Definition node_item (rendered : gmap string string) (violation : Violation)
    (nodeIndex : nat) (node : NodeView) : NodeItem :=
  {| item_index := nodeIndex;
     item_key := solutionKey violation nodeIndex;
     item_audience := getTargetAudience (v_id violation);
     item_html := JS.or_opt (nv_html node) (nv_context node);
     item_target := JS.or_opt (nv_target node) (nv_selector node);
     item_solution := rendered !! solutionKey violation nodeIndex |}.

(** [(violation.nodes || [violation]).map((node, nodeIndex) => ...)] *)
Definition node_items (rendered : gmap string string) (violation : Violation)
    : list NodeItem :=
  imap (node_item rendered violation) (display_nodes violation).

(** ** The axe-core runner: [initBrowser] and [runAxe] *)

Module Scanner.

(** How one call into puppeteer ends: it resolves, or it rejects with an
    error whose [message] may be missing. *)
Inductive Attempt : Type :=
| resolves
| rejects (reason : option string).

(** What the runner does to the browser, in order. *)
Inductive Event : Type :=
| Launch
| NewPage
| Configure
| Goto (url : string)
| Wait (ms : N)
| Inject
| Analyse
| ClosePage.

(** The browser driver as the runner meets it. *)
Record Puppeteer := {
  (** [puppeteer.launch(...)] *)
  launch : Attempt;
  (** [browser.newPage()] *)
  newPage : Attempt;
  (** the page settings, [setBypassCSP] last *)
  configure : Attempt;
  (** the [n]-th call of [page.goto], counted from 0 *)
  goto : nat → Attempt;
  (** [page.evaluate(axeCore.source)] *)
  inject : Attempt;
  (** the second [page.evaluate]: the results of [axe.run], its error, or
      the 30 second timeout *)
  analysis : Outcome AxeResults;
  (** [page.isClosed()] when the [finally] block runs *)
  isClosed : bool
}.

(** [initBrowser], on the module variable [browser] ([true] when it holds
    an instance): the events, the variable afterwards, and how the call
    ended. *)
Definition initBrowser (p : Puppeteer) (browser : bool)
    : list Event * bool * Attempt :=
  if browser then ([], true, resolves)
  else
    match launch p with
    | resolves => ([Launch], true, resolves)
    | rejects reason => ([Launch], false, rejects reason)
    end.

(** The navigation loop, entered with [retries] attempts left before the
    [attempt]-th call of [page.goto]. *)
Fixpoint navigate (p : Puppeteer) (url : string) (attempt retries : nat)
    : list Event * Attempt :=
  match retries with
  | 0 => ([], resolves)
  | S retries =>
      match goto p attempt with
      | resolves => ([Goto url], resolves)
      | rejects reason =>
          if retries =? 0 then ([Goto url], rejects reason)
          else
            let '(es, r) := navigate p url (S attempt) retries in
            (Goto url :: Wait 2000%N :: es, r)
      end
  end.

(** The statements of the [try] block once the page exists. *)
Definition on_page (p : Puppeteer) (url : string)
    : list Event * Settled AxeResults :=
  match configure p with
  | rejects reason => ([Configure], rejected reason)
  | resolves =>
      let '(es, r) := navigate p url 0 3 in
      match r with
      | rejects reason => (Configure :: es, rejected reason)
      | resolves =>
          match inject p with
          | rejects reason => (Configure :: es ++ [Inject], rejected reason)
          | resolves =>
              (Configure :: es ++ [Inject; Analyse],
               match analysis p with
               | Returned results => fulfilled results
               | Thrown message => rejected (Some message)
               end)
          end
      end
  end.

(** [runAxe]: the events, the module variable [browser] afterwards, and
    how the promise settles.  The [finally] block closes the page when
    there is one and it is still open; a failure of [page.close] is
    swallowed. *)
Definition runAxe (p : Puppeteer) (browser : bool) (url : string)
    : list Event * bool * Settled AxeResults :=
  let '(es0, browser', started) := initBrowser p browser in
  match started with
  | rejects reason => (es0, browser', rejected reason)
  | resolves =>
      match newPage p with
      | rejects reason => (es0 ++ [NewPage], browser', rejected reason)
      | resolves =>
          let '(es, r) := on_page p url in
          (es0 ++ NewPage :: es ++ (if isClosed p then [] else [ClosePage]),
           browser', r)
      end
  end.

Definition is_goto (e : Event) : bool :=
  match e with Goto _ => true | _ => false end.

Definition is_wait (e : Event) : bool :=
  match e with Wait _ => true | _ => false end.

Definition is_launch (e : Event) : bool :=
  match e with Launch => true | _ => false end.

Definition is_close (e : Event) : bool :=
  match e with ClosePage => true | _ => false end.

Definition count (f : Event → bool) (es : list Event) : nat :=
  length (List.filter f es).

End Scanner.

(** ** The credential endpoint: [GET /api/groq-key] *)

Module KeyEndpoint.

Inductive Body : Type :=
| ApiKey (apiKey : string)
| Error (error : string).

Record Response := {
  status : nat;
  body : Body
}.

(** The handler, from [process.env.GROQ_API_KEY]. *)
Definition get_groq_key (env : option string) : Response :=
  if negb (JS.truthy_opt env) then
    {| status := 500; body := Error "Groq API key not configured on server" |}
  else
    {| status := 200; body := ApiKey (default "" env) |}.

(** What [fetch] and [keyResponse.json()] give the component for a
    response of the handler. *)
Definition fetched (r : Response) : Outcome KeyResponse :=
  Returned {| ok := ((200 <=? status r) && (status r <=? 299));
              key_status := status r;
              json_apiKey :=
                Returned (match body r with
                          | ApiKey k => Some k
                          | Error _ => None
                          end) |}.

End KeyEndpoint.

(** The services of a component whose key requests reach the handler
    above. *)
Definition world_of (env : option string) (stream : string → string → Stream)
    (complete : string → string → Outcome (option string)) : World :=
  {| fetch_groq_key := KeyEndpoint.fetched (KeyEndpoint.get_groq_key env);
     create_stream := stream;
     create_complete := complete |}.

(** ** Submitting the form: [handleSubmit] *)

Inductive UiEffect : Type :=
| SetIsLoading (value : bool)
| SetError (value : string)
| SetResults (value : option FormattedResults).

Record Page := {
  isLoading : bool;
  error : string;
  results : option FormattedResults
}.

Definition apply_ui (σ : Page) (e : UiEffect) : Page :=
  match e with
  | SetIsLoading b => {| isLoading := b; error := error σ; results := results σ |}
  | SetError s => {| isLoading := isLoading σ; error := s; results := results σ |}
  | SetResults r => {| isLoading := isLoading σ; error := error σ; results := r |}
  end.

Definition run_ui (σ : Page) (es : list UiEffect) : Page := foldl apply_ui σ es.

(** [performAccessibilityTest] with the three flags it sets before the
    request and the one it resets in its [finally] block. *)
Definition performAccessibilityTest_ui (response : Outcome Server.Response)
    : list UiEffect * Outcome FormattedResults :=
  ([SetIsLoading true; SetError ""; SetResults None; SetIsLoading false],
   performAccessibilityTest response).

(** [handleSubmit], for the address in the form and the way the request
    for that address ends. *)
Definition handleSubmit (fetch_test : string → Outcome Server.Response)
    (url : string) : list UiEffect :=
  if negb (JS.truthy url) then []
  else
    let '(es, r) := performAccessibilityTest_ui (fetch_test url) in
    match r with
    | Returned testResults => es ++ [SetResults (Some testResults)]
    | Thrown _ =>
        es ++ [SetError "Failed to test the website. Please check the URL and try again."]
    end.

(** ** Severity styling *)

(** The class of the icon [getSeverityIcon] returns. *)
Definition getSeverityIcon (impact : option string) : string :=
  if decide (impact = Some "critical") then "w-5 h-5 text-red-600"
  else if decide (impact = Some "serious") then "w-5 h-5 text-orange-600"
  else if decide (impact = Some "moderate") then "w-5 h-5 text-yellow-600"
  else "w-5 h-5 text-blue-600".

Definition getSeverityColor (impact : option string) : string :=
  if decide (impact = Some "critical") then "border-red-500 bg-red-50"
  else if decide (impact = Some "serious") then "border-orange-500 bg-orange-50"
  else if decide (impact = Some "moderate") then "border-yellow-500 bg-yellow-50"
  else "border-blue-500 bg-blue-50".

(** The colour classes of the severity badge. *)
Definition badge_class (impact : option string) : string :=
  if decide (impact = Some "critical") then "bg-red-100 text-red-800"
  else if decide (impact = Some "serious") then "bg-orange-100 text-orange-800"
  else if decide (impact = Some "moderate") then "bg-yellow-100 text-yellow-800"
  else "bg-blue-100 text-blue-800".

(** ** Audience icons: [getAudienceIcon] *)




(** ** Reference notions the properties are stated with *)

(** The severity mapping of pa11y issue types, as a table. *)
Definition severity_of_type (ty : string) : option string :=
  if decide (ty = "error") then Some "critical"
  else if decide (ty = "warning") then Some "serious"
  else if decide (ty = "notice") then Some "moderate"
  else None.

Definition pa11y_types : list string := ["error"; "warning"; "notice"].

Definition severities : list string := ["critical"; "serious"; "moderate"; "minor"].

(** The number of violations of a list that carry severity [sev]. *)
Definition count_severity (sev : string) (vs : list Violation) : nat :=
  length (filter (λ v, v_impact v = Some sev) vs).

(** The sum of the four counters the summary panel shows. *)
Definition displayed_total (results : FormattedResults) : nat :=
  displayed results "critical" + displayed results "serious"
  + displayed results "moderate" + displayed results "minor".

Definition concat_all (l : list string) : string := foldr String.append "" l.

(** The text of a chunk: [content || ""]. *)
Definition chunk_text (chunk : option string) : string := JS.or_string chunk "".

(** The non-empty prefixes of a sequence of texts, each concatenated. *)
Definition prefixes (l : list string) : list string :=
  map (λ k, concat_all (take k l)) (seq 1 (length l)).

(** The key endpoint answers with a usable credential [k]. *)
Definition has_credential (w : World) (k : string) : Prop :=
  ∃ r, fetch_groq_key w = Returned r ∧ ok r = true
       ∧ json_apiKey r = Returned (Some k) ∧ JS.truthy k = true.

(** The text [handleGetSolution] ends up storing: the solution, or the
    message of the failure. *)
Definition stored_text (r : Outcome string) : string :=
  match r with
  | Returned solution => solution
  | Thrown message => "Error getting solution: " +:+ message
  end.

(** Whether a string holds a hyphen. *)
Fixpoint has_dash (s : string) : bool :=
  match s with
  | EmptyString => false
  | String c s' => (nat_of_ascii c =? 45) || has_dash s'
  end.

(** ** Concrete collaborators for the worked runs *)

Definition is_alpha (c : ascii) : bool :=
  let n := nat_of_ascii c in
  (((65 <=? n) && (n <=? 90)) || ((97 <=? n) && (n <=? 122)))%nat.

Definition is_scheme_char (c : ascii) : bool :=
  let n := nat_of_ascii c in
  (is_alpha c || ((48 <=? n) && (n <=? 57))
   || (n =? 43) || (n =? 45) || (n =? 46))%nat.

Fixpoint scheme_rest (s : string) : bool :=
  match s with
  | EmptyString => false
  | String c s' =>
      if (nat_of_ascii c =? 58)%nat then true
      else is_scheme_char c && scheme_rest s'
  end.

(** A stand-in for the platform's URL parser: it accepts the strings that
    start with a scheme and a colon, which is what [new URL] without a
    base address asks for first. *)
Definition has_scheme (s : string) : bool :=
  match s with
  | EmptyString => false
  | String c s' => is_alpha c && scheme_rest s'
  end.

Definition both_fail_axe : string → Settled AxeResults :=
  λ _, rejected (Some "net::ERR_NAME_NOT_RESOLVED").

Definition both_fail_pa11y : string → Settled Pa11yResults :=
  λ _, rejected (Some "Pa11y timed out (60000ms)").

Definition minor_violation : Violation :=
  {| v_id := "empty-heading";
     v_description := "Headings should not be empty";
     v_impact := Some "minor";
     v_nodes := Some [ {| target := Some "h2"; html := Some "<h2></h2>" |} ];
     v_context := None;
     v_selector := None |}.

Definition image_alt_violation : Violation :=
  {| v_id := "image-alt";
     v_description := "Images must have alternate text";
     v_impact := Some "critical";
     v_nodes := Some [ {| target := Some "img"; html := Some "<img src=a.png>" |} ];
     v_context := None;
     v_selector := None |}.

Definition h1_issue : Issue :=
  {| code := "H1"; message := "Heading markup should be used";
     type := "warning"; selector := "html > body > p";
     context := "<p><b>Title</b></p>" |}.

Definition axe_one (v : Violation) : string → Settled AxeResults :=
  λ _, fulfilled {| axe_error := None; axe_details := None;
                    axe_violations := [v]; axe_passes := [] |}.

Definition pa11y_of (issues : list Issue) : string → Settled Pa11yResults :=
  λ _, fulfilled {| pa11y_error := None; pa11y_details := None;
                    pa11y_issues := issues; pa11y_passes := None |}.

(** A violation whose [nodes] array is present and empty. *)
Definition no_node_violation : Violation :=
  {| v_id := "document-title";
     v_description := "Documents must have a title element";
     v_impact := Some "serious";
     v_nodes := Some [];
     v_context := None;
     v_selector := None |}.

(** A violation without a [nodes] field. *)
Definition bare_violation : Violation :=
  {| v_id := "H37";
     v_description := "Img element missing an alt attribute";
     v_impact := Some "critical";
     v_nodes := None;
     v_context := Some "<img src=b.png>";
     v_selector := Some "#logo" |}.

Definition key_ok : Outcome KeyResponse :=
  Returned {| ok := true; key_status := 200;
              json_apiKey := Returned (Some "gsk_test") |}.

(** The stream delivers three chunks and completes. *)
Definition world_abc : World :=
  {| fetch_groq_key := key_ok;
     create_stream := λ _ _, {| chunks := [Some "A"; Some "B"; Some "C"];
                                failure := None |};
     create_complete := λ _ _, Returned (Some "unused") |}.

(** The stream completes without any text: an opening chunk with an
    empty [content] and a closing chunk without one. *)
Definition world_silent : World :=
  {| fetch_groq_key := key_ok;
     create_stream := λ _ _, {| chunks := [Some ""; None]; failure := None |};
     create_complete := λ _ _, Returned (Some "unused") |}.

(** The stream breaks after one chunk; the plain request answers. *)
Definition world_broken_stream : World :=
  {| fetch_groq_key := key_ok;
     create_stream := λ _ _, {| chunks := [Some "Add an"];
                                failure := Some "socket hang up" |};
     create_complete := λ _ _, Returned (Some "Add an alt attribute.") |}.

(** A browser whose first two navigations time out. *)
Definition flaky_puppeteer : Scanner.Puppeteer :=
  {| Scanner.launch := Scanner.resolves;
     Scanner.newPage := Scanner.resolves;
     Scanner.configure := Scanner.resolves;
     Scanner.goto := λ n, if n <? 2 then Scanner.rejects (Some "net::ERR_TIMED_OUT")
                          else Scanner.resolves;
     Scanner.inject := Scanner.resolves;
     Scanner.analysis :=
       Returned {| axe_error := None; axe_details := None;
                   axe_violations := [image_alt_violation]; axe_passes := [] |};
     Scanner.isClosed := false |}.

(** A browser on which every navigation fails. *)
Definition unreachable_puppeteer : Scanner.Puppeteer :=
  {| Scanner.launch := Scanner.resolves;
     Scanner.newPage := Scanner.resolves;
     Scanner.configure := Scanner.resolves;
     Scanner.goto := λ n, Scanner.rejects
                            (Some ("net::ERR_NAME_NOT_RESOLVED #" +:+ JS.of_nat n));
     Scanner.inject := Scanner.resolves;
     Scanner.analysis := Thrown "unused";
     Scanner.isClosed := false |}.

(** Neither the stream nor the plain request answers. *)
Definition world_down : World :=
  {| fetch_groq_key := key_ok;
     create_stream := λ _ _, {| chunks := [Some "Add"];
                                failure := Some "socket hang up" |};
     create_complete := λ _ _, Thrown "503 Service Unavailable" |}.

(** The key an update writes. *)
Definition effect_key (e : Effect) : string :=
  match e with
  | SetSolutions key _ => key
  | SetLoadingSolutions key _ => key
  end.

(** A violation whose description is the index of its second node. *)
Definition colliding_violation : Violation :=
  {| v_id := "list";
     v_description := "1";
     v_impact := Some "serious";
     v_nodes := Some [ {| target := Some "ul"; html := Some "<ul><p></p></ul>" |};
                       {| target := Some "ol"; html := Some "<ol><p></p></ol>" |} ];
     v_context := None;
     v_selector := None |}.

(** * Properties *)

(** ** The scan endpoint *)

Section EndpointFacts.

Variable URL_parses : string → bool.
Variable runAxe : string → Settled AxeResults.
Variable pa11y : string → Settled Pa11yResults.

(** A well-formed address starts both engines, and the response is a
    report with status 200 however the engines settled. *)
Lemma post_api_test_scans (u : string) :
  JS.truthy u = true → URL_parses u = true →
  Server.post_api_test URL_parses runAxe pa11y (Some u) =
    ([Server.RunAxe u; Server.RunPa11y u],
     {| Server.status := 200;
        Server.body :=
          Server.Report (Server.processed_axe (runAxe u))
            (Server.processed_pa11y (pa11y u))
            (Server.summary (Server.processed_axe (runAxe u))
               (Server.processed_pa11y (pa11y u))) |}).
Proof.
  intros Hu Hp. unfold Server.post_api_test, Server.allSettled.
  rewrite Hu, Hp. reflexivity.
Qed.

(** With a parsed body the only statuses are 400 and 200. *)
Lemma post_api_test_status (url : option string) :
  Server.status (Server.post_api_test URL_parses runAxe pa11y url).2 = 400
  ∨ Server.status (Server.post_api_test URL_parses runAxe pa11y url).2 = 200.
Proof.
  unfold Server.post_api_test, Server.allSettled.
  destruct url as [u|]; [|by left].
  destruct (JS.truthy u); [|by left].
  destruct (URL_parses u); [by right|by left].
Qed.

End EndpointFacts.

(** With a parsed body: a request whose address is missing, empty or
    rejected by the URL parser is answered with status 400 and an error
    body, and the list of engines started is empty. *)
Theorem invalid_url_rejected_before_any_scan
    (URL_parses : string → bool) (runAxe : string → Settled AxeResults)
    (pa11y : string → Settled Pa11yResults) (url : option string) :
  (url = None ∨ ∃ u, url = Some u ∧ (JS.truthy u = false ∨ URL_parses u = false)) →
  ∃ error,
    Server.post_api_test URL_parses runAxe pa11y url =
      ([], {| Server.status := 400; Server.body := Server.ErrorBody error |}).
Proof.
  intros [-> | (u & -> & Hbad)]; simpl.
  - by eexists.
  - destruct (JS.truthy u) eqn:Hu; simpl; [|by eexists].
    destruct Hbad as [Hbad | Hbad]; [discriminate|].
    rewrite Hbad. by eexists.
Qed.

Lemma invalid_url_rejected_witness :
  has_scheme "not a url" = false
  ∧ ∃ error,
      Server.post_api_test has_scheme (axe_one image_alt_violation)
        (pa11y_of [h1_issue]) (Some "not a url") =
        ([], {| Server.status := 400; Server.body := Server.ErrorBody error |}).
Proof.
  split; [reflexivity|].
  apply (invalid_url_rejected_before_any_scan has_scheme).
  right. exists "not a url". split; [reflexivity|]. right. reflexivity.
Defined.

(** C1, as the endpoint behaves: when both engines fail on a well-formed
    address, the response has status 200; its [axe] and [pa11y] entries
    are the two sentinels, each with its own label and the reason of its
    failure in [details] and with empty result lists, and the three
    counters of its summary are zero. *)
Theorem both_scanners_fail_sentinel_report
    (URL_parses : string → bool) (runAxe : string → Settled AxeResults)
    (pa11y : string → Settled Pa11yResults) (u : string)
    (reasonA reasonB : option string) :
  JS.truthy u = true → URL_parses u = true →
  runAxe u = rejected reasonA → pa11y u = rejected reasonB →
  Server.post_api_test URL_parses runAxe pa11y (Some u) =
    ([Server.RunAxe u; Server.RunPa11y u],
     {| Server.status := 200;
        Server.body :=
          Server.Report
            {| axe_error := Some "Axe-core test failed";
               axe_details := Some (JS.or_string reasonA "Unknown error");
               axe_violations := []; axe_passes := [] |}
            {| pa11y_error := Some "Pa11y test failed";
               pa11y_details := Some (JS.or_string reasonB "Unknown error");
               pa11y_issues := []; pa11y_passes := Some [] |}
            (<["critical" := 0]> (<["serious" := 0]> (<["moderate" := 0]> ∅))) |}).
Proof.
  intros Hu Hp HA HB.
  rewrite post_api_test_scans by assumption.
  rewrite HA, HB. reflexivity.
Qed.

Lemma both_scanners_fail_sentinel_witness :
  (JS.truthy "https://example.com" = true
   ∧ has_scheme "https://example.com" = true
   ∧ both_fail_axe "https://example.com" = rejected (Some "net::ERR_NAME_NOT_RESOLVED")
   ∧ both_fail_pa11y "https://example.com" = rejected (Some "Pa11y timed out (60000ms)"))
  ∧ Server.post_api_test has_scheme both_fail_axe both_fail_pa11y
    (Some "https://example.com") =
    ([Server.RunAxe "https://example.com"; Server.RunPa11y "https://example.com"],
     {| Server.status := 200;
        Server.body :=
          Server.Report
            {| axe_error := Some "Axe-core test failed";
               axe_details := Some "net::ERR_NAME_NOT_RESOLVED";
               axe_violations := []; axe_passes := [] |}
            {| pa11y_error := Some "Pa11y test failed";
               pa11y_details := Some "Pa11y timed out (60000ms)";
               pa11y_issues := []; pa11y_passes := Some [] |}
            (<["critical" := 0]> (<["serious" := 0]> (<["moderate" := 0]> ∅))) |}).
Proof.
  split; [repeat split|].
  apply (both_scanners_fail_sentinel_report has_scheme both_fail_axe both_fail_pa11y
           "https://example.com" (Some "net::ERR_NAME_NOT_RESOLVED")
           (Some "Pa11y timed out (60000ms)")); reflexivity.
Defined.

(** C1, as stated, fails: with both engines failing, the caller receives
    status 200 and the component turns the body into an ordinary report
    with no violation and four zero counters. *)
Lemma both_scanners_fail_looks_clean :
  Server.status
    (Server.post_api_test has_scheme both_fail_axe both_fail_pa11y
       (Some "https://example.com")).2 = 200
  ∧ ∃ results,
      performAccessibilityTest
        (Returned (Server.post_api_test has_scheme both_fail_axe both_fail_pa11y
                     (Some "https://example.com")).2) = Returned results
      ∧ violations results = []
      ∧ passes results = []
      ∧ displayed_total results = 0.
Proof.
  split; [reflexivity|].
  eexists. split; [reflexivity|]. by vm_compute.
Qed.

(** ** The summary *)

Lemma displayed_formatted (axe : AxeResults) (pa : Pa11yResults)
    (s : gmap string nat) (sev : string) :
  displayed (formattedResults axe pa s) sev = default 0 (s !! sev).
Proof. reflexivity. Qed.

(** The summary object has exactly the keys [critical], [serious] and
    [moderate]. *)
Lemma summary_keys (axe : AxeResults) (pa : Pa11yResults) :
  dom (Server.summary axe pa) = {["critical"; "serious"; "moderate"]}.
Proof. unfold Server.summary. rewrite !dom_insert_L. set_solver. Qed.

(** An issue of a known type is counted under the severity the component
    gives it. *)
Lemma count_normalized (sev ty : string) (issues : list Issue) :
  severity_of_type ty = Some sev →
  Forall (λ i, type i ∈ pa11y_types) issues →
  count_severity sev (map normalize issues) = length (filter (λ i, type i = ty) issues).
Proof.
  intros Hsev Hall. unfold count_severity.
  induction Hall as [|i issues Hi _ IH]; [reflexivity|].
  cbn [map]. rewrite !filter_cons.
  unfold pa11y_types in Hi. unfold severity_of_type in Hsev.
  assert (Hcases : type i = "error" ∨ type i = "warning" ∨ type i = "notice").
  { rewrite !elem_of_cons, elem_of_nil in Hi. tauto. }
  assert (Himpact : v_impact (normalize i) = severity_of_type (type i)).
  { unfold normalize, severity_of_type; cbn [v_impact].
    destruct Hcases as [Hty | [Hty | Hty]]; rewrite Hty; reflexivity. }
  rewrite Himpact. unfold severity_of_type.
  destruct Hcases as [Hty | [Hty | Hty]]; rewrite Hty;
    repeat (case_decide; try congruence);
    cbn [length]; rewrite ?IH; congruence.
Qed.

(** Each of the three counters the endpoint computes is the number of
    merged violations of that severity, when neither result object
    carries an [error] field and the issue types are pa11y's. *)
Lemma summary_counter (axe : AxeResults) (pa : Pa11yResults) (sev ty : string) :
  severity_of_type ty = Some sev →
  JS.truthy_opt (axe_error axe) = false →
  JS.truthy_opt (pa11y_error pa) = false →
  Forall (λ i, type i ∈ pa11y_types) (pa11y_issues pa) →
  displayed (formattedResults axe pa (Server.summary axe pa)) sev =
    count_severity sev (violations (formattedResults axe pa (Server.summary axe pa))).
Proof.
  intros Hsev HA HB Hall.
  rewrite displayed_formatted. cbn [violations formattedResults].
  unfold count_severity. rewrite filter_app, length_app.
  fold (count_severity sev (map normalize (pa11y_issues pa))).
  rewrite (count_normalized sev ty) by assumption.
  unfold Server.summary, Server.axe_count, Server.pa11y_count.
  rewrite HA, HB.
  unfold severity_of_type in Hsev.
  repeat case_decide; simplify_eq; by simplify_map_eq.
Qed.

Lemma three_filters_le {A : Type} (f : A → option string) (a b c : string) (l : list A) :
  a ≠ b → a ≠ c → b ≠ c →
  (length (filter (λ x, f x = Some a) l) + length (filter (λ x, f x = Some b) l)
   + length (filter (λ x, f x = Some c) l) ≤ length l)%nat.
Proof.
  intros Hab Hac Hbc. induction l as [|x l IH]; [reflexivity|].
  rewrite !filter_cons.
  repeat case_decide; cbn [length]; try lia; congruence.
Qed.

(** The four counters shown never add up to more than the number of
    merged violations. *)
Lemma summary_total_le (axe : AxeResults) (pa : Pa11yResults) :
  (displayed_total (formattedResults axe pa (Server.summary axe pa))
   ≤ length (violations (formattedResults axe pa (Server.summary axe pa))))%nat.
Proof.
  unfold displayed_total. rewrite !displayed_formatted.
  cbn [violations formattedResults]. rewrite length_app, length_map.
  unfold Server.summary. simplify_map_eq. cbn [default].
  assert (HA := three_filters_le v_impact "critical" "serious" "moderate"
                  (axe_violations axe) ltac:(done) ltac:(done) ltac:(done)).
  assert (HB := three_filters_le (λ i, Some (type i)) "error" "warning" "notice"
                  (pa11y_issues pa) ltac:(done) ltac:(done) ltac:(done)).
  assert (Heq : ∀ ty, length (filter (λ i, Some (type i) = Some ty) (pa11y_issues pa))
                      = length (filter (λ i, type i = ty) (pa11y_issues pa))).
  { intros ty. f_equal. apply list_filter_iff. intros i. split; congruence. }
  rewrite !Heq in HB.
  unfold Server.axe_count, Server.pa11y_count.
  destruct (JS.truthy_opt (axe_error axe)), (JS.truthy_opt (pa11y_error pa));
    lia.
Qed.

(** C2 at the input on which it fails: axe-core reports one violation of
    impact [minor] and pa11y reports nothing.  Every merged violation has
    a recognised severity, yet the summary has no [minor] entry, the panel
    shows 0 for it, and the four counters add up to 0, not to 1. *)
Lemma minor_violation_not_counted :
  ∃ results,
    performAccessibilityTest
      (Returned (Server.post_api_test has_scheme (axe_one minor_violation)
                   (pa11y_of []) (Some "https://example.com")).2) = Returned results
    ∧ violations results = [minor_violation]
    ∧ Forall (λ v, ∃ sev, v_impact v = Some sev ∧ sev ∈ severities) (violations results)
    ∧ (results_summary results ≫= λ s, s !! "minor") = None
    ∧ displayed results "minor" = 0
    ∧ count_severity "minor" (violations results) = 1
    ∧ displayed_total results = 0
    ∧ length (violations results) = 1.
Proof.
  eexists. split; [reflexivity|]. split; [reflexivity|].
  split.
  { cbn [violations formattedResults app map axe_violations pa11y_issues].
    constructor; [|constructor].
    exists "minor". split; [reflexivity|]. unfold severities. set_solver. }
  repeat split; by vm_compute.
Qed.

(** ** Merging the two result lists *)

Lemma formatted_lookup_axe (axe : AxeResults) (pa : Pa11yResults)
    (s : gmap string nat) (i : nat) (v : Violation) :
  axe_violations axe !! i = Some v →
  violations (formattedResults axe pa s) !! i = Some v.
Proof. intros H. cbn [violations formattedResults]. by apply lookup_app_l_Some. Qed.

Lemma formatted_lookup_pa11y (axe : AxeResults) (pa : Pa11yResults)
    (s : gmap string nat) (j : nat) (issue : Issue) :
  pa11y_issues pa !! j = Some issue →
  violations (formattedResults axe pa s) !! (length (axe_violations axe) + j)
    = Some (normalize issue).
Proof.
  intros H. cbn [violations formattedResults].
  rewrite lookup_app_r by lia.
  replace (length (axe_violations axe) + j - length (axe_violations axe)) with j by lia.
  by rewrite list_lookup_fmap, H.
Qed.

(** C6: an issue whose type is one of pa11y's three becomes one
    violation: it carries the issue's code and message, its severity is
    the one the table [error ↦ critical], [warning ↦ serious],
    [notice ↦ moderate] gives, and its only node is built from the
    issue's selector and context. *)
Theorem normalize_one_violation_one_node (issue : Issue) :
  type issue ∈ pa11y_types →
  v_id (normalize issue) = code issue
  ∧ v_description (normalize issue) = message issue
  ∧ v_impact (normalize issue) = severity_of_type (type issue)
  ∧ v_nodes (normalize issue) =
      Some [ {| target := Some (selector issue); html := Some (context issue) |} ]
  ∧ ∀ axe pa s,
      pa11y_issues pa = [issue] →
      violations (formattedResults axe pa s) = axe_violations axe ++ [normalize issue].
Proof.
  intros Hty. repeat split.
  - unfold pa11y_types in Hty. rewrite !elem_of_cons, elem_of_nil in Hty.
    unfold normalize, severity_of_type; cbn [v_impact].
    destruct Hty as [-> | [-> | [-> | []]]]; reflexivity.
  - intros axe pa s Hpa. cbn [violations formattedResults]. by rewrite Hpa.
Qed.

Lemma normalize_one_violation_witness :
  type h1_issue ∈ pa11y_types
  ∧ v_impact (normalize h1_issue) = Some "serious"
  ∧ v_nodes (normalize h1_issue) =
      Some [ {| target := Some "html > body > p"; html := Some "<p><b>Title</b></p>" |} ].
Proof.
  assert (Hty : type h1_issue ∈ pa11y_types).
  { unfold pa11y_types. cbn. rewrite !elem_of_cons. right; left; reflexivity. }
  split; [exact Hty|].
  destruct (normalize_one_violation_one_node h1_issue Hty)
    as (_ & _ & Himpact & Hnodes & _).
  split; [exact Himpact | exact Hnodes].
Defined.

(** C7: whatever the two engines returned, the report the component
    builds from the endpoint's answer lists axe-core's violations first
    and the normalised pa11y issues after them, each group in its own
    order, so that its length is the sum of the two; the passes are
    joined in the same order. *)
Theorem merged_lists_are_A_then_B
    (URL_parses : string → bool) (runAxe : string → Settled AxeResults)
    (pa11y : string → Settled Pa11yResults) (u : string) :
  JS.truthy u = true → URL_parses u = true →
  let a := Server.processed_axe (runAxe u) in
  let b := Server.processed_pa11y (pa11y u) in
  ∃ results,
    performAccessibilityTest
      (Returned (Server.post_api_test URL_parses runAxe pa11y (Some u)).2)
      = Returned results
    ∧ violations results = axe_violations a ++ map normalize (pa11y_issues b)
    ∧ length (violations results) = length (axe_violations a) + length (pa11y_issues b)
    ∧ (∀ i v, axe_violations a !! i = Some v → violations results !! i = Some v)
    ∧ (∀ j issue, pa11y_issues b !! j = Some issue →
         violations results !! (length (axe_violations a) + j) = Some (normalize issue))
    ∧ passes results = axe_passes a ++ default [] (pa11y_passes b).
Proof.
  intros Hu Hp a b.
  rewrite post_api_test_scans by assumption. fold a b.
  eexists. split; [reflexivity|].
  split; [reflexivity|]. split.
  { cbn [violations formattedResults]. by rewrite length_app, length_map. }
  split; [intros i v; apply formatted_lookup_axe|].
  split; [intros j issue; apply formatted_lookup_pa11y|reflexivity].
Qed.

Lemma merged_lists_witness :
  (JS.truthy "https://example.com" = true ∧ has_scheme "https://example.com" = true)
  ∧ ∃ results,
      performAccessibilityTest
        (Returned (Server.post_api_test has_scheme (axe_one image_alt_violation)
                     (pa11y_of [h1_issue]) (Some "https://example.com")).2)
        = Returned results
      ∧ violations results = [image_alt_violation; normalize h1_issue]
      ∧ displayed results "critical" = 1
      ∧ displayed results "serious" = 1.
Proof.
  split; [split; reflexivity|].
  destruct (merged_lists_are_A_then_B has_scheme (axe_one image_alt_violation)
              (pa11y_of [h1_issue]) "https://example.com" eq_refl eq_refl)
    as (results & Hrun & Hviol & _).
  exists results. split; [exact Hrun|]. split; [exact Hviol|].
  injection Hrun as <-. split; by vm_compute.
Defined.

(** ** The per-node loop *)

(** C5, as the view behaves: the loop runs over the violation itself when
    the violation has no [nodes] field, and over [nodes] when it has one;
    so unless [nodes] is an empty array the loop has at least one
    iteration, and every index it hands to the per-node logic is within
    the list it runs over. *)
Theorem display_nodes_nonempty (rendered : gmap string string) (violation : Violation) :
  v_nodes violation ≠ Some [] →
  display_nodes violation ≠ []
  ∧ (v_nodes violation = None → display_nodes violation = [of_violation violation])
  ∧ (∀ ns, v_nodes violation = Some ns →
       display_nodes violation = map of_node ns
       ∧ ∀ i n, ns !! i = Some n →
           ∃ item, node_items rendered violation !! i = Some item
                   ∧ item_index item = i
                   ∧ item_html item = JS.or_opt (html n) None
                   ∧ item_target item = JS.or_opt (target n) None)
  ∧ length (node_items rendered violation) = length (display_nodes violation)
  ∧ ∀ i item, node_items rendered violation !! i = Some item →
      item_index item = i ∧ i < length (display_nodes violation).
Proof.
  intros Hne. unfold node_items, display_nodes.
  split.
  { destruct (v_nodes violation) as [[|n ns]|]; [congruence|done|done]. }
  split; [by intros ->|].
  split.
  { intros ns ->. split; [reflexivity|]. intros i n Hn.
    eexists. split.
    - rewrite list_lookup_imap, list_lookup_fmap, Hn. reflexivity.
    - by repeat split. }
  split; [apply length_imap|].
  intros i item Hitem.
  apply list_lookup_imap_Some in Hitem as (node & Hnode & ->).
  split; [reflexivity|]. by eapply lookup_lt_Some.
Qed.

Lemma display_nodes_nonempty_witness :
  v_nodes bare_violation ≠ Some []
  ∧ display_nodes bare_violation = [of_violation bare_violation]
  ∧ length (node_items ∅ bare_violation) = 1
  ∧ v_nodes image_alt_violation ≠ Some []
  ∧ display_nodes image_alt_violation
    = [of_node {| target := Some "img"; html := Some "<img src=a.png>" |}].
Proof.
  assert (Hne : v_nodes bare_violation ≠ Some []) by discriminate.
  assert (Hne' : v_nodes image_alt_violation ≠ Some []) by discriminate.
  split; [exact Hne|].
  destruct (display_nodes_nonempty ∅ bare_violation Hne) as (_ & Hone & _ & Hlen & _).
  split; [exact (Hone eq_refl)|].
  split; [rewrite Hlen, (Hone eq_refl); reflexivity|].
  split; [exact Hne'|].
  destruct (display_nodes_nonempty ∅ image_alt_violation Hne') as (_ & _ & Hsome & _).
  exact (proj1 (Hsome _ eq_refl)).
Defined.

(** C5, as stated, fails: a violation that arrives with an empty [nodes]
    array gets no placeholder, and the loop has no iteration. *)
Lemma empty_nodes_array_not_padded :
  v_nodes no_node_violation = Some []
  ∧ display_nodes no_node_violation = []
  ∧ node_items ∅ no_node_violation = [].
Proof. repeat split. Qed.

(** ** The audience classifier *)

Lemma audienceMap_shape :
  size audienceMap = 24
  ∧ map_Forall (λ _ ls, 2 ≤ length ls ≤ 3) audienceMap.
Proof.
  split; [by vm_compute|].
  apply map_Forall_to_list. vm_compute. repeat constructor.
Qed.

(** The lookup on ordinary rule ids: the result depends on the rule id alone
    (not on the remediation cache, the violation's other fields or the
    node), a rule id of the table yields its list of two or three labels,
    and a rule id outside the table yields absent provided it is not the
    name of a property that every object inherits. *)
Theorem getTargetAudience_lookup (issue : string) :
  issue ∉ Object_prototype →
  getTargetAudience issue = from_option labels absent (audienceMap !! issue)
  ∧ (audienceMap !! issue = None → getTargetAudience issue = absent)
  ∧ (∀ ls, getTargetAudience issue = labels ls → 2 ≤ length ls ≤ 3)
  ∧ ∀ rendered rendered' v v' i i' n n',
      v_id v = issue → v_id v' = issue →
      item_audience (node_item rendered v i n)
      = item_audience (node_item rendered' v' i' n').
Proof.
  intros Hproto. unfold getTargetAudience.
  rewrite bool_decide_eq_false_2 by exact Hproto.
  split; [by destruct (audienceMap !! issue)|].
  split; [by intros ->|].
  split.
  - intros ls Hls. destruct (audienceMap !! issue) as [ls'|] eqn:Hlook; [|done].
    injection Hls as <-.
    exact (proj2 audienceMap_shape issue ls' Hlook).
  - intros. cbn [item_audience node_item]. congruence.
Qed.

Lemma getTargetAudience_lookup_witness :
  (("image-alt" ∉ Object_prototype) ∧ ("no-such-rule" ∉ Object_prototype))
  ∧ getTargetAudience "image-alt"
      = labels ["Blind users"; "Screen reader users"; "Low bandwidth users"]
  ∧ getTargetAudience "no-such-rule" = absent.
Proof.
  assert (H1 : "image-alt" ∉ Object_prototype).
  { refine (bool_decide_unpack _ _). by vm_compute. }
  assert (H2 : "no-such-rule" ∉ Object_prototype).
  { refine (bool_decide_unpack _ _). by vm_compute. }
  split; [by split|]. split.
  - rewrite (proj1 (getTargetAudience_lookup "image-alt" H1)). by vm_compute.
  - apply (getTargetAudience_lookup "no-such-rule" H2). by vm_compute.
Defined.

(** C10 at the input on which it fails: [constructor] is not a key of
    the table, yet the member access finds the property of that name on
    the prototype; the lookup does not come back absent, and the value it
    comes back with, which is no list of labels, is what the per-node
    loop receives as the audience. *)
Lemma inherited_property_is_not_absent :
  audienceMap !! "constructor" = None
  ∧ getTargetAudience "constructor" = inherited "constructor"
  ∧ getTargetAudience "constructor" ≠ absent
  ∧ item_audience
      (node_item ∅ {| v_id := "constructor"; v_description := "d";
                      v_impact := None; v_nodes := None;
                      v_context := None; v_selector := None |}
         0 {| nv_html := None; nv_context := None;
              nv_target := None; nv_selector := None |})
    = inherited "constructor".
Proof. repeat split; by vm_compute. Qed.

(** ** The remediation client *)

Lemma append_nil_r (s : string) : s +:+ "" = s.
Proof.
  induction s as [|c s IH]; [reflexivity|].
  change (String c (s +:+ "") = String c s). by rewrite IH.
Qed.

Lemma append_assoc (s t u : string) : (s +:+ t) +:+ u = s +:+ (t +:+ u).
Proof.
  induction s as [|c s IH]; [reflexivity|].
  change (String c ((s +:+ t) +:+ u) = String c (s +:+ (t +:+ u))). by rewrite IH.
Qed.

Lemma concat_all_cons (s : string) (l : list string) :
  concat_all (s :: l) = s +:+ concat_all l.
Proof. reflexivity. Qed.

Lemma bind_returned {A B} (a : A) (k : A → M B) :
  bind (await (Returned a)) k = k a.
Proof. unfold bind, await. by destruct (k a). Qed.

Lemma bind_setSolutions {B} (key value : string) (m : M B) :
  (setSolutions key value ;;; m) = (SetSolutions key value :: m.1, m.2).
Proof. by destruct m. Qed.

(** What the loop dispatches and how it ends, for any buffer it starts
    from: one update per chunk, each with the buffer so far. *)
Lemma stream_loop_trace (key acc : string) (cs : list (option string))
    (failure : option string) :
  stream_loop key acc cs failure =
    (map (λ k, SetSolutions key (acc +:+ concat_all (take k (map chunk_text cs))))
       (seq 1 (length cs)),
     match failure with
     | None => Returned (acc +:+ concat_all (map chunk_text cs))
     | Some message => Thrown message
     end).
Proof.
  revert acc. induction cs as [|c cs IH]; intros acc.
  - cbn [stream_loop map length seq]. unfold concat_all at 1. cbn [foldr].
    rewrite append_nil_r. by destruct failure.
  - cbn [stream_loop]. rewrite bind_setSolutions, IH. cbn [fst snd].
    fold (chunk_text c). cbn [length seq map].
    assert (Hfirst : concat_all (take 1 (chunk_text c :: map chunk_text cs))
                     = chunk_text c).
    { cbn [take]. rewrite take_0, concat_all_cons.
      unfold concat_all. cbn [foldr]. apply append_nil_r. }
    rewrite Hfirst, <- (seq_shift (length cs) 1), map_map.
    apply f_equal2; [apply (f_equal (cons _))|].
    + apply map_ext. intros k.
      cbn [take]. by rewrite concat_all_cons, append_assoc.
    + destruct failure; [reflexivity|].
      by rewrite concat_all_cons, append_assoc.
Qed.

Lemma getAISolution_with_credential (w : World) (k issue description : string)
    (html : option string) :
  has_credential w k →
  getAISolution w issue description html =
    let key := issue +:+ "-" +:+ JS.substring0 20 description in
    let request := prompt issue description html in
    try_catch
      (try_catch
         (stream_loop key "" (chunks (create_stream w k request))
            (failure (create_stream w k request)))
         (λ _, let* response := await (create_complete w k request) in
               let content := JS.or_string response "No response generated" in
               setSolutions key content ;;; ret content))
      (λ error, throw ("Failed to get AI solution: " +:+ error)).
Proof.
  intros (r & Hfetch & Hok & Hjson & Hk).
  unfold getAISolution. rewrite Hfetch, bind_returned, Hok. cbn [negb].
  rewrite Hjson, bind_returned. cbn [JS.truthy_opt]. rewrite Hk. reflexivity.
Qed.

(** The view of one key over the states a list of updates of that key
    produces. *)
Lemma history_of_updates (σ : State) (key : string) (values : list string) :
  map (λ σ', solutions σ' !! key) (history σ (map (SetSolutions key) values))
  = map Some values.
Proof.
  revert σ. induction values as [|v values IH]; intros σ; [reflexivity|].
  cbn [map history]. rewrite IH. f_equal. cbn. apply lookup_insert_eq.
Qed.

Lemma observed_of_updates (key : string) (values : list string) :
  observed key (map (SetSolutions key) values) = values.
Proof.
  unfold observed. induction values as [|v values IH]; [reflexivity|].
  cbn. rewrite decide_True by reflexivity. by rewrite IH.
Qed.

(** When the stream delivers its chunks and completes, the updates
    [getAISolution] dispatches are, in order, the concatenations of the
    first one, two, ... chunks, all stored under its key, and the value
    it returns is the concatenation of all of them. *)
Theorem streamed_states_are_prefixes (w : World) (k issue description : string)
    (html : option string) (cs : list (option string)) (σ : State) :
  has_credential w k →
  create_stream w k (prompt issue description html)
    = {| chunks := cs; failure := None |} →
  let key := issue +:+ "-" +:+ JS.substring0 20 description in
  let run := getAISolution w issue description html in
  run = (map (SetSolutions key) (prefixes (map chunk_text cs)),
         Returned (concat_all (map chunk_text cs)))
  ∧ observed key run.1 = prefixes (map chunk_text cs)
  ∧ map (λ σ', solutions σ' !! key) (history σ run.1)
    = map Some (prefixes (map chunk_text cs)).
Proof.
  intros Hcred Hstream key run.
  assert (Hrun : run = (map (SetSolutions key) (prefixes (map chunk_text cs)),
                        Returned (concat_all (map chunk_text cs)))).
  { subst run. rewrite (getAISolution_with_credential w k) by assumption.
    cbn zeta. rewrite Hstream. cbn [chunks failure].
    rewrite stream_loop_trace. cbn [try_catch].
    unfold prefixes. by rewrite map_map, length_map. }
  rewrite Hrun. cbn [fst].
  split; [reflexivity|]. split; [apply observed_of_updates|apply history_of_updates].
Qed.

Lemma streamed_states_witness :
  has_credential world_abc "gsk_test"
  ∧ getAISolution world_abc "image-alt" "Images must have alternate text" None
    = ([SetSolutions "image-alt-Images must have alt" "A";
        SetSolutions "image-alt-Images must have alt" "AB";
        SetSolutions "image-alt-Images must have alt" "ABC"],
       Returned "ABC").
Proof.
  assert (Hcred : has_credential world_abc "gsk_test").
  { eexists. repeat split. }
  split; [exact Hcred|].
  exact (proj1 (streamed_states_are_prefixes world_abc "gsk_test" "image-alt"
                  "Images must have alternate text" None
                  [Some "A"; Some "B"; Some "C"]
                  {| solutions := ∅; loadingSolutions := ∅ |}
                  Hcred eq_refl)).
Defined.

(** When the stream breaks, the value returned is the content of the
    plain response, or the placeholder when that content is missing or
    empty: it is not empty, and none of the chunks received before the
    failure is part of it. *)
Lemma getAISolution_fallback (w : World) (k issue description : string)
    (html : option string) (cs : list (option string)) (message : string)
    (response : option string) :
  has_credential w k →
  create_stream w k (prompt issue description html)
    = {| chunks := cs; failure := Some message |} →
  create_complete w k (prompt issue description html) = Returned response →
  let key := issue +:+ "-" +:+ JS.substring0 20 description in
  let content := JS.or_string response "No response generated" in
  getAISolution w issue description html
    = (map (SetSolutions key) (prefixes (map chunk_text cs)) ++ [SetSolutions key content],
       Returned content)
  ∧ content ≠ "".
Proof.
  intros Hcred Hstream Hcomplete key content. split.
  - rewrite (getAISolution_with_credential w k) by assumption.
    cbn zeta. rewrite Hstream, Hcomplete. cbn [chunks failure].
    rewrite stream_loop_trace. cbn.
    unfold prefixes. by rewrite map_map, length_map.
  - subst content. destruct response as [[|c s]|]; done.
Qed.

(** When the plain request fails as well, [getAISolution] throws. *)
Lemma getAISolution_both_fail (w : World) (k issue description : string)
    (html : option string) (cs : list (option string)) (message message' : string) :
  has_credential w k →
  create_stream w k (prompt issue description html)
    = {| chunks := cs; failure := Some message |} →
  create_complete w k (prompt issue description html) = Thrown message' →
  (getAISolution w issue description html).2
    = Thrown ("Failed to get AI solution: " +:+ message').
Proof.
  intros Hcred Hstream Hcomplete.
  rewrite (getAISolution_with_credential w k) by assumption.
  cbn zeta. rewrite Hstream, Hcomplete. cbn [chunks failure].
  rewrite stream_loop_trace. reflexivity.
Qed.

(** C4 at the input on which it fails: the credential is served and the
    stream completes without any text.  The streaming path has completed,
    so no plain request is made and no placeholder is substituted:
    [getAISolution] returns the empty string, [handleGetSolution] stores
    it, and the entry the view then reads is falsy. *)
Lemma silent_stream_returns_empty :
  has_credential world_silent "gsk_test"
  ∧ getAISolution world_silent "image-alt" "Images must have alternate text"
      (Some "<img src=a.png>")
    = ([SetSolutions "image-alt-Images must have alt" "";
        SetSolutions "image-alt-Images must have alt" ""],
       Returned "")
  ∧ solutions
      (run {| solutions := ∅; loadingSolutions := ∅ |}
         (handleGetSolution world_silent ∅ image_alt_violation 0).1)
      !! solutionKey image_alt_violation 0 = Some ""
  ∧ JS.truthy_opt (Some "") = false.
Proof.
  split; [eexists; repeat split|].
  split; [reflexivity|]. split; [by vm_compute|reflexivity].
Qed.

(** ** The remediation cache *)

Lemma has_dash_app (a b : string) : has_dash (a +:+ "-" +:+ b) = true.
Proof.
  induction a as [|c a IH]; [reflexivity|].
  change (((nat_of_ascii c =? 45) || has_dash (a +:+ "-" +:+ b)) = true).
  rewrite IH. apply orb_true_r.
Qed.

(** A key of the cache is never the name of a property the cache object
    inherits, so a lookup in the cache finds what was stored and nothing
    else. *)
Lemma solutionKey_not_inherited (violation : Violation) (nodeIndex : nat) :
  solutionKey violation nodeIndex ∉ Object_prototype.
Proof.
  intros Hin.
  assert (Hall : Forall (λ name, has_dash name = false) Object_prototype)
    by (repeat constructor).
  rewrite Forall_forall in Hall. specialize (Hall _ Hin).
  unfold solutionKey in Hall. by rewrite has_dash_app in Hall.
Qed.

Lemma run_app (σ : State) (es es' : list Effect) :
  run σ (es ++ es') = run (run σ es) es'.
Proof. apply foldl_app. Qed.

(** A request for an entry that is already shown does nothing. *)
Lemma handleGetSolution_cached (w : World) (rendered : gmap string string)
    (violation : Violation) (nodeIndex : nat) :
  JS.truthy_opt (rendered !! solutionKey violation nodeIndex) = true →
  handleGetSolution w rendered violation nodeIndex = ret tt.
Proof. intros H. unfold handleGetSolution. by rewrite H. Qed.

Lemma handleGetSolution_effects (w : World) (rendered : gmap string string)
    (violation : Violation) (nodeIndex : nat) :
  JS.truthy_opt (rendered !! solutionKey violation nodeIndex) = false →
  let key := solutionKey violation nodeIndex in
  let client := getAISolution w (v_id violation) (v_description violation)
                  (node_html violation nodeIndex) in
  handleGetSolution w rendered violation nodeIndex =
    (SetLoadingSolutions key true
       :: client.1 ++ [SetSolutions key (stored_text client.2);
                       SetLoadingSolutions key false],
     Returned tt).
Proof.
  intros H key client. unfold handleGetSolution. rewrite H.
  fold key. fold client.
  destruct client as [es [solution|message]]; cbn; by rewrite <- ?app_assoc.
Qed.

(** C3, as the component behaves: the entry [handleGetSolution] checks
    before it starts, the entry it writes the solution or the failure
    message to when it ends, and the entry the per-node loop shows are
    all the one named by the rule id and the node index.  Two violations
    with the same rule id therefore share their entry at a given node
    index, whatever their descriptions. *)
Theorem remediation_entry_keyed_by_rule_and_node (w : World)
    (rendered : gmap string string) (σ : State) (violation : Violation)
    (nodeIndex : nat) :
  JS.truthy_opt (rendered !! solutionKey violation nodeIndex) = false →
  let key := v_id violation +:+ "-" +:+ JS.of_nat nodeIndex in
  let client := getAISolution w (v_id violation) (v_description violation)
                  (node_html violation nodeIndex) in
  let es := (handleGetSolution w rendered violation nodeIndex).1 in
  es = SetLoadingSolutions key true
         :: client.1 ++ [SetSolutions key (stored_text client.2);
                         SetLoadingSolutions key false]
  ∧ solutions (run σ es) !! key = Some (stored_text client.2)
  ∧ ∀ other node,
      v_id other = v_id violation →
      item_key (node_item (solutions (run σ es)) other nodeIndex node) = key
      ∧ item_solution (node_item (solutions (run σ es)) other nodeIndex node)
        = Some (stored_text client.2).
Proof.
  intros H key client es.
  assert (Hes : es = SetLoadingSolutions key true
                       :: client.1 ++ [SetSolutions key (stored_text client.2);
                                       SetLoadingSolutions key false]).
  { subst es. by rewrite handleGetSolution_effects. }
  assert (Hlook : solutions (run σ es) !! key = Some (stored_text client.2)).
  { rewrite Hes. unfold run at 1. cbn [foldl]. fold (run (apply σ (SetLoadingSolutions key true))).
    rewrite run_app. cbn. apply lookup_insert_eq. }
  split; [exact Hes|]. split; [exact Hlook|].
  intros other node Hid. cbn [item_key item_solution node_item].
  unfold solutionKey. rewrite Hid. by split.
Qed.

Lemma remediation_entry_witness :
  JS.truthy_opt ((∅ : gmap string string) !! solutionKey image_alt_violation 0) = false
  ∧ solutions
      (run {| solutions := ∅; loadingSolutions := ∅ |}
         (handleGetSolution world_broken_stream ∅ image_alt_violation 0).1)
      !! "image-alt-0" = Some "Add an alt attribute.".
Proof.
  assert (H : JS.truthy_opt ((∅ : gmap string string)
                             !! solutionKey image_alt_violation 0) = false)
    by reflexivity.
  split; [exact H|].
  exact (proj1 (proj2 (remediation_entry_keyed_by_rule_and_node world_broken_stream
                         ∅ {| solutions := ∅; loadingSolutions := ∅ |}
                         image_alt_violation 0 H))).
Defined.

(** C3, as stated, fails: in one request the streamed text is written
    under a key made of the rule id and the start of the description,
    which is not the key the request checks, completes and displays; and
    that key holds neither the description nor, on the client's side, the
    node index. *)
Lemma streamed_text_goes_to_another_key :
  written_keys (handleGetSolution world_abc ∅ image_alt_violation 0).1
    = ["image-alt-Images must have alt"; "image-alt-Images must have alt";
       "image-alt-Images must have alt"; "image-alt-0"]
  ∧ solutionKey image_alt_violation 0 = "image-alt-0"
  ∧ item_key (node_item ∅ image_alt_violation 0
                (of_violation image_alt_violation)) = "image-alt-0"
  ∧ "image-alt-Images must have alt" ≠ solutionKey image_alt_violation 0
  ∧ solutionKey image_alt_violation 0
    = solutionKey {| v_id := "image-alt"; v_description := "Another description";
                     v_impact := None; v_nodes := None;
                     v_context := None; v_selector := None |} 0
  ∧ (handleGetSolution world_abc ∅ image_alt_violation 0).1
      !! 1 = Some (SetSolutions "image-alt-Images must have alt" "A").
Proof. repeat split; by vm_compute. Qed.

(** * Further properties *)

(** ** The axe-core runner *)

Lemma count_app (f : Scanner.Event → bool) (es es' : list Scanner.Event) :
  Scanner.count f (es ++ es') = Scanner.count f es + Scanner.count f es'.
Proof. unfold Scanner.count. by rewrite List.filter_app, length_app. Qed.

Lemma count_cons (f : Scanner.Event → bool) (e : Scanner.Event) (es : list Scanner.Event) :
  Scanner.count f (e :: es) = (if f e then 1 else 0) + Scanner.count f es.
Proof. unfold Scanner.count. cbn. by destruct (f e). Qed.

(** The loop never exceeds the attempts it is allowed, and it pauses, for
    two seconds, between two attempts only. *)
Lemma navigate_counts (p : Scanner.Puppeteer) (url : string) (retries attempt : nat) :
  Scanner.count Scanner.is_goto (Scanner.navigate p url attempt retries).1 ≤ retries
  ∧ (0 < retries →
     Scanner.count Scanner.is_wait (Scanner.navigate p url attempt retries).1 + 1
     = Scanner.count Scanner.is_goto (Scanner.navigate p url attempt retries).1)
  ∧ Forall (λ e, Scanner.is_wait e = true → e = Scanner.Wait 2000%N)
      (Scanner.navigate p url attempt retries).1.
Proof.
  revert attempt. induction retries as [|retries IH]; intros attempt.
  - cbn. repeat split; [lia|lia|constructor].
  - cbn [Scanner.navigate].
    destruct (Scanner.goto p attempt) as [|reason].
    { cbn. repeat split; [lia|]. by repeat constructor. }
    destruct (Nat.eqb_spec retries 0) as [->|Hpos].
    { cbn. repeat split; [lia|]. by repeat constructor. }
    specialize (IH (S attempt)).
    destruct (Scanner.navigate p url (S attempt) retries) as [es r].
    cbn [fst] in *. destruct IH as (Hle & Hwait & Hok).
    rewrite !count_cons. cbn [Scanner.is_goto Scanner.is_wait].
    specialize (Hwait ltac:(lia)).
    repeat split; [lia|lia|]. by repeat constructor.
Qed.

Lemma navigate_shape (p : Scanner.Puppeteer) (url : string) (retries attempt : nat) :
  0 < retries →
  ∃ k, k < retries
       ∧ (Scanner.navigate p url attempt retries).1
         = mjoin (replicate k [Scanner.Goto url; Scanner.Wait 2000%N])
           ++ [Scanner.Goto url].
Proof.
  revert attempt. induction retries as [|retries IH]; intros attempt Hpos; [lia|].
  cbn [Scanner.navigate].
  destruct (Scanner.goto p attempt) as [|reason]; [exists 0; split; [lia|done]|].
  destruct (Nat.eqb_spec retries 0) as [->|Hne]; [exists 0; split; [lia|done]|].
  destruct (IH (S attempt) ltac:(lia)) as (k & Hk & Hes).
  destruct (Scanner.navigate p url (S attempt) retries) as [es r].
  cbn [fst] in *. subst es. exists (S k). split; [lia|reflexivity].
Qed.

Lemma on_page_shape (p : Scanner.Puppeteer) (url : string) :
  (Scanner.on_page p url).1 = [Scanner.Configure]
  ∨ ∃ k post,
      k < 3
      ∧ (Scanner.on_page p url).1
        = Scanner.Configure
            :: (mjoin (replicate k [Scanner.Goto url; Scanner.Wait 2000%N])
                ++ [Scanner.Goto url]) ++ post
      ∧ Scanner.count Scanner.is_goto post = 0
      ∧ Scanner.count Scanner.is_wait post = 0.
Proof.
  unfold Scanner.on_page.
  destruct (Scanner.configure p); [|by left].
  destruct (navigate_shape p url 3 0 ltac:(lia)) as (k & Hk & Hnav).
  destruct (Scanner.navigate p url 0 3) as [es r]. cbn [fst] in Hnav. subst es.
  right. exists k.
  destruct r as [|reason]; [destruct (Scanner.inject p)|].
  - by exists [Scanner.Inject; Scanner.Analyse].
  - by exists [Scanner.Inject].
  - exists []. by rewrite app_nil_r.
Qed.

Lemma block_split (es0 R post closing : list Scanner.Event) :
  es0 ++ Scanner.NewPage :: (Scanner.Configure :: R ++ post) ++ closing
  = (es0 ++ [Scanner.NewPage; Scanner.Configure]) ++ R ++ (post ++ closing).
Proof.
  rewrite <- (app_assoc es0). cbn [app]. by rewrite <- (app_assoc R).
Qed.

(** However the browser behaves, one run calls [page.goto] at most three
    times, and it waits between two attempts only: the number of pauses
    is the number of attempts less one, and each pause lasts two
    seconds.  When the run navigates at all, its attempts and pauses
    form one block in which they alternate, an attempt first and an
    attempt last: no pause follows the last attempt. *)
Theorem runAxe_retry_bound (p : Scanner.Puppeteer) (browser : bool) (url : string) :
  let es := (Scanner.runAxe p browser url).1.1 in
  Scanner.count Scanner.is_goto es ≤ 3
  ∧ Scanner.count Scanner.is_wait es = Scanner.count Scanner.is_goto es - 1
  ∧ Forall (λ e, Scanner.is_wait e = true → e = Scanner.Wait 2000%N) es
  ∧ ((Scanner.count Scanner.is_goto es = 0 ∧ Scanner.count Scanner.is_wait es = 0)
     ∨ ∃ pre k post,
         k < 3
         ∧ es = pre
                ++ (mjoin (replicate k [Scanner.Goto url; Scanner.Wait 2000%N])
                    ++ [Scanner.Goto url])
                ++ post
         ∧ Scanner.count Scanner.is_goto pre = 0
         ∧ Scanner.count Scanner.is_wait pre = 0
         ∧ Scanner.count Scanner.is_goto post = 0
         ∧ Scanner.count Scanner.is_wait post = 0).
Proof.
  cbn zeta.
  assert (Hcounts :
    Scanner.count Scanner.is_goto (Scanner.runAxe p browser url).1.1 ≤ 3
    ∧ Scanner.count Scanner.is_wait (Scanner.runAxe p browser url).1.1
      = Scanner.count Scanner.is_goto (Scanner.runAxe p browser url).1.1 - 1
    ∧ Forall (λ e, Scanner.is_wait e = true → e = Scanner.Wait 2000%N)
        (Scanner.runAxe p browser url).1.1).
  {
  destruct (navigate_counts p url 3 0) as (Hle & Hwait & Hok).
  specialize (Hwait ltac:(lia)).
  unfold Scanner.runAxe, Scanner.initBrowser, Scanner.on_page.
  destruct (Scanner.navigate p url 0 3) as [es r]. cbn [fst] in *.
  assert (Hsingle : ∀ e, Scanner.is_wait e = false →
            Forall (λ e, Scanner.is_wait e = true → e = Scanner.Wait 2000%N) [e]).
  { intros e He. constructor; [congruence|constructor]. }
  destruct browser, (Scanner.launch p), (Scanner.newPage p), (Scanner.configure p),
    r, (Scanner.inject p), (Scanner.isClosed p);
    cbn [fst snd app];
    rewrite ?count_cons, ?count_app, ?count_cons; cbn;
    (split; [lia|split; [lia|]]);
    repeat first [ apply Forall_nil_2
                 | apply Forall_cons; split; [cbn; congruence|]
                 | apply Forall_app; split
                 | exact Hok ].
  }
  destruct Hcounts as (H1 & H2 & H3).
  split; [exact H1|]. split; [exact H2|]. split; [exact H3|].
  unfold Scanner.runAxe, Scanner.initBrowser.
  destruct (on_page_shape p url) as [Hc | (k & post & Hk & Hes & Hg & Hw)];
    destruct (Scanner.on_page p url) as [es r]; cbn [fst] in *; subst es.
  - left.
    destruct browser, (Scanner.launch p), (Scanner.newPage p), (Scanner.isClosed p);
      by cbn.
  - destruct browser, (Scanner.launch p) as [|reason], (Scanner.newPage p) as [|reason'];
      cbn [fst snd]; try (left; by cbn).
    all: right; eexists _, k, _; (split; [exact Hk|]);
         (split; [apply block_split|]);
         rewrite !count_app, Hg, Hw; by destruct (Scanner.isClosed p).
Qed.

(** The loop, for any number of attempts allowed: when the first [k]
    calls are rejected and the next one resolves, it stops there. *)
Lemma navigate_until_success (p : Scanner.Puppeteer) (url : string) (k : nat) :
  ∀ retries attempt,
    k < retries →
    (∀ j, j < k → Scanner.goto p (attempt + j) ≠ Scanner.resolves) →
    Scanner.goto p (attempt + k) = Scanner.resolves →
    Scanner.navigate p url attempt retries =
      (mjoin (replicate k [Scanner.Goto url; Scanner.Wait 2000%N]) ++ [Scanner.Goto url],
       Scanner.resolves).
Proof.
  induction k as [|k IH]; intros retries attempt Hlt Hfail Hok.
  - destruct retries as [|retries]; [lia|].
    cbn [Scanner.navigate]. rewrite Nat.add_0_r in Hok. by rewrite Hok.
  - destruct retries as [|retries]; [lia|].
    cbn [Scanner.navigate].
    destruct (Scanner.goto p attempt) as [|reason] eqn:H0.
    { exfalso. apply (Hfail 0); [lia|]. by rewrite Nat.add_0_r. }
    destruct (Nat.eqb_spec retries 0) as [->|_]; [lia|].
    rewrite (IH retries (S attempt)).
    + reflexivity.
    + lia.
    + intros j Hj. replace (S attempt + j) with (attempt + S j) by lia.
      apply Hfail. lia.
    + by replace (S attempt + k) with (attempt + S k) by lia.
Qed.

(** A run in which the page is created and configured and the first
    successful navigation is the [k]-th retry ([k] below three) makes
    exactly [k + 1] navigation attempts, and settles as the injection and
    the analysis do: fulfilled with the analysis results when both
    succeed. *)
Theorem runAxe_first_success (p : Scanner.Puppeteer) (browser : bool)
    (url : string) (k : nat) (results : AxeResults) :
  k < 3 →
  browser = true ∨ Scanner.launch p = Scanner.resolves →
  Scanner.newPage p = Scanner.resolves →
  Scanner.configure p = Scanner.resolves →
  (∀ j, j < k → Scanner.goto p j ≠ Scanner.resolves) →
  Scanner.goto p k = Scanner.resolves →
  Scanner.inject p = Scanner.resolves →
  Scanner.analysis p = Returned results →
  (Scanner.runAxe p browser url).2 = fulfilled results
  ∧ (Scanner.runAxe p browser url).1.2 = true
  ∧ Scanner.count Scanner.is_goto (Scanner.runAxe p browser url).1.1 = S k
  ∧ Scanner.count Scanner.is_wait (Scanner.runAxe p browser url).1.1 = k.
Proof.
  intros Hk Hstart Hpage Hconf Hfail Hok Hinj Hres.
  unfold Scanner.runAxe, Scanner.on_page.
  assert (Hinit : ∃ es0, Scanner.initBrowser p browser = (es0, true, Scanner.resolves)
                         ∧ Scanner.count Scanner.is_goto es0 = 0
                         ∧ Scanner.count Scanner.is_wait es0 = 0).
  { unfold Scanner.initBrowser.
    destruct browser; [by eexists|].
    destruct Hstart as [?| ->]; [done|by eexists]. }
  destruct Hinit as (es0 & -> & Hg0 & Hw0).
  rewrite Hpage, Hconf.
  rewrite (navigate_until_success p url k 3 0) by (cbn; auto).
  rewrite Hinj, Hres. cbn [fst snd]. split; [reflexivity|]. split; [reflexivity|].
  unfold Scanner.count in *. rewrite !List.filter_app, !length_app, Hg0, Hw0.
  assert (k = 0 ∨ k = 1 ∨ k = 2) as [-> | [-> | ->]] by lia;
    destruct (Scanner.isClosed p); by cbn.
Qed.

Lemma runAxe_first_success_witness :
  (Scanner.runAxe flaky_puppeteer false "https://example.com").2
    = fulfilled {| axe_error := None; axe_details := None;
                   axe_violations := [image_alt_violation]; axe_passes := [] |}
  ∧ Scanner.count Scanner.is_goto
      (Scanner.runAxe flaky_puppeteer false "https://example.com").1.1 = 3.
Proof.
  assert (Hfail : ∀ j, j < 2 → Scanner.goto flaky_puppeteer j ≠ Scanner.resolves).
  { intros j Hj. assert (j = 0 ∨ j = 1) as [-> | ->] by lia; discriminate. }
  destruct (runAxe_first_success flaky_puppeteer false "https://example.com" 2 _
              ltac:(lia) (or_intror eq_refl) eq_refl eq_refl Hfail
              eq_refl eq_refl eq_refl)
    as (Hres & _ & Hgoto & _).
  split; [exact Hres | exact Hgoto].
Defined.

Lemma runAxe_three_failures (p : Scanner.Puppeteer) (browser : bool)
    (url : string) (e0 e1 e2 : option string) :
  browser = true ∨ Scanner.launch p = Scanner.resolves →
  Scanner.newPage p = Scanner.resolves →
  Scanner.configure p = Scanner.resolves →
  Scanner.goto p 0 = Scanner.rejects e0 →
  Scanner.goto p 1 = Scanner.rejects e1 →
  Scanner.goto p 2 = Scanner.rejects e2 →
  Scanner.runAxe p browser url =
    ((if browser then [] else [Scanner.Launch])
       ++ [Scanner.NewPage; Scanner.Configure;
           Scanner.Goto url; Scanner.Wait 2000%N;
           Scanner.Goto url; Scanner.Wait 2000%N; Scanner.Goto url]
       ++ (if Scanner.isClosed p then [] else [Scanner.ClosePage]),
     true, rejected e2).
Proof.
  intros Hstart Hpage Hconf H0 H1 H2.
  unfold Scanner.runAxe, Scanner.initBrowser, Scanner.on_page.
  cbn [Scanner.navigate Nat.eqb].
  rewrite Hpage, Hconf, H0, H1, H2.
  destruct browser; [reflexivity|].
  destruct Hstart as [Hb | Hl]; [discriminate Hb|]. by rewrite Hl.
Qed.

(** When the page is created and configured and three navigations in a
    row are rejected, the run is rejected with the reason of the third
    one; it never navigates a fourth time, and it neither injects nor
    runs the analysis. *)
Theorem runAxe_navigation_exhausted (p : Scanner.Puppeteer) (browser : bool)
    (url : string) (e0 e1 e2 : option string) :
  browser = true ∨ Scanner.launch p = Scanner.resolves →
  Scanner.newPage p = Scanner.resolves →
  Scanner.configure p = Scanner.resolves →
  Scanner.goto p 0 = Scanner.rejects e0 →
  Scanner.goto p 1 = Scanner.rejects e1 →
  Scanner.goto p 2 = Scanner.rejects e2 →
  let es := (Scanner.runAxe p browser url).1.1 in
  (Scanner.runAxe p browser url).2 = rejected e2
  ∧ Scanner.count Scanner.is_goto es = 3
  ∧ (Scanner.Inject ∉ es) ∧ (Scanner.Analyse ∉ es).
Proof.
  intros Hstart Hpage Hconf H0 H1 H2. cbn zeta.
  rewrite (runAxe_three_failures p browser url e0 e1 e2) by assumption.
  cbn [fst snd].
  destruct browser, (Scanner.isClosed p); cbn;
    (split; [reflexivity|split; [reflexivity|]]);
    split; intros Hin; repeat (apply elem_of_cons in Hin as [Hin|Hin]; [discriminate|]);
    by apply elem_of_nil in Hin.
Qed.

Lemma runAxe_navigation_exhausted_witness :
  (Scanner.runAxe unreachable_puppeteer false "https://example.com").2
    = rejected (Some "net::ERR_NAME_NOT_RESOLVED #2").
Proof.
  exact (proj1 (runAxe_navigation_exhausted unreachable_puppeteer false
                  "https://example.com" _ _ _
                  (or_intror eq_refl) eq_refl eq_refl eq_refl eq_refl eq_refl)).
Defined.

Lemma on_page_never_closes (p : Scanner.Puppeteer) (url : string) :
  Scanner.count Scanner.is_close (Scanner.on_page p url).1 = 0.
Proof.
  unfold Scanner.on_page. cbn [Scanner.navigate Nat.eqb].
  repeat case_match; simplify_eq; reflexivity.
Qed.

(** The page is closed at most once, and only as the last thing the run
    does; it is closed exactly when it was created and is not closed
    already, whether the run succeeds or fails. *)
Theorem runAxe_closes_its_page (p : Scanner.Puppeteer) (browser : bool) (url : string) :
  let es := (Scanner.runAxe p browser url).1.1 in
  Scanner.count Scanner.is_close es ≤ 1
  ∧ (Scanner.count Scanner.is_close es = 1 → last es = Some Scanner.ClosePage)
  ∧ (Scanner.count Scanner.is_close es = 1 ↔
       (browser = true ∨ Scanner.launch p = Scanner.resolves)
       ∧ Scanner.newPage p = Scanner.resolves ∧ Scanner.isClosed p = false).
Proof.
  cbn zeta. unfold Scanner.runAxe, Scanner.initBrowser.
  pose proof (on_page_never_closes p url) as Hpage.
  destruct (Scanner.on_page p url) as [es r]. cbn [fst] in Hpage.
  destruct browser, (Scanner.launch p), (Scanner.newPage p), (Scanner.isClosed p);
    cbn [fst snd];
    rewrite ?count_app, ?(count_app _ [Scanner.NewPage]), ?app_nil_r;
    change (Scanner.NewPage :: es ++ [Scanner.ClosePage])
      with ((Scanner.NewPage :: es) ++ [Scanner.ClosePage]);
    rewrite ?app_assoc, ?count_app, ?last_snoc;
    change (Scanner.count Scanner.is_close (Scanner.NewPage :: es))
      with (Scanner.count Scanner.is_close es);
    rewrite ?Hpage; cbn;
    (split; [lia|]); (split; [intros; first [reflexivity|lia]|]);
    split; intros; intuition (first [congruence|lia]).
Qed.

(** The browser is launched only while the module variable is empty: a
    run that finds an instance launches nothing, a run that finds none
    launches once, and the variable holds an instance afterwards exactly
    when it did before or the launch succeeded.  A failed launch ends
    the run at once and leaves the variable empty, so that the next run
    tries again. *)
Theorem browser_launched_once (p p' : Scanner.Puppeteer) (browser : bool)
    (url url' : string) :
  let first := Scanner.runAxe p browser url in
  let second := Scanner.runAxe p' first.1.2 url' in
  Scanner.count Scanner.is_launch first.1.1 = (if browser then 0 else 1)
  ∧ (first.1.2 = true ↔ browser = true ∨ Scanner.launch p = Scanner.resolves)
  ∧ (first.1.2 = true → Scanner.count Scanner.is_launch second.1.1 = 0)
  ∧ (∀ reason, browser = false → Scanner.launch p = Scanner.rejects reason →
       first = ([Scanner.Launch], false, rejected reason)).
Proof.
  cbn zeta.
  assert (Hpage : ∀ q u, Scanner.count Scanner.is_launch (Scanner.on_page q u).1 = 0).
  { intros q u. unfold Scanner.on_page. cbn [Scanner.navigate Nat.eqb].
    repeat case_match; simplify_eq; reflexivity. }
  assert (Hrun : ∀ q b u,
            Scanner.count Scanner.is_launch (Scanner.runAxe q b u).1.1
              = (if b then 0 else 1)
            ∧ ((Scanner.runAxe q b u).1.2 = true
               ↔ b = true ∨ Scanner.launch q = Scanner.resolves)).
  { intros q b u. unfold Scanner.runAxe, Scanner.initBrowser.
    specialize (Hpage q u).
    destruct (Scanner.on_page q u) as [es r]. cbn [fst] in Hpage.
    destruct b, (Scanner.launch q), (Scanner.newPage q), (Scanner.isClosed q);
      cbn [fst snd app];
      rewrite ?count_cons, ?count_app, ?count_cons, ?Hpage; cbn;
      (split; [lia|]); split; intros; intuition congruence. }
  destruct (Hrun p browser url) as [Hcount Hstate].
  split; [exact Hcount|]. split; [exact Hstate|]. split.
  - intros Hb. rewrite Hb. apply (Hrun p' true url').
  - intros reason -> Hl. unfold Scanner.runAxe, Scanner.initBrowser. by rewrite Hl.
Qed.

(** ** The scan endpoint, continued *)

(** The two engines are started exactly when the request has a parsed
    body whose address is present, non-empty and accepted by the URL
    parser; they are then started once each, on that address, axe-core
    first, and the status is 200.  A parsed body with any other address
    is answered 400, and a request without a parsed body is answered 500
    by the outer [catch]. *)
Theorem scan_runs_iff_valid_url
    (URL_parses : string → bool) (runAxe : string → Settled AxeResults)
    (pa11y : string → Settled Pa11yResults) (body : option (option string)) :
  let valid := ∃ u, body = Some (Some u) ∧ JS.truthy u = true ∧ URL_parses u = true in
  let answer := Server.handler URL_parses runAxe pa11y body in
  (valid ↔ answer.1 ≠ [])
  ∧ (valid ↔ Server.status answer.2 = 200)
  ∧ (body ≠ None ∧ ¬ valid ↔ Server.status answer.2 = 400)
  ∧ (body = None ↔ Server.status answer.2 = 500)
  ∧ (∀ u, body = Some (Some u) → answer.1 ≠ [] →
       answer.1 = [Server.RunAxe u; Server.RunPa11y u]).
Proof.
  cbn zeta.
  assert (Hvalid : (∃ u, body = Some (Some u) ∧ JS.truthy u = true ∧ URL_parses u = true)
                   ↔ match body with
                     | Some (Some u) => JS.truthy u = true ∧ URL_parses u = true
                     | _ => False
                     end).
  { destruct body as [[u|]|]; split.
    - by intros (u' & [= <-] & H).
    - intros H. by exists u.
    - by intros (u' & ? & _).
    - done.
    - by intros (u' & ? & _).
    - done. }
  rewrite Hvalid. clear Hvalid.
  unfold Server.handler, Server.post_api_test, Server.allSettled.
  destruct body as [[u|]|]; cbn.
  - destruct (JS.truthy u), (URL_parses u); cbn;
      repeat split; intros; try done; try (intuition congruence).
    all: by simplify_eq.
  - repeat split; intros; try done; intuition congruence.
  - repeat split; intros; try done; intuition congruence.
Qed.

(** When axe-core fails and pa11y answers, no error is raised: the
    report holds pa11y's findings and nothing else, and the counters of
    the panel count them (when pa11y's own object has no [error] field
    and its issue types are the three it documents). *)
Theorem axe_failure_keeps_pa11y_findings
    (URL_parses : string → bool) (runAxe : string → Settled AxeResults)
    (pa11y : string → Settled Pa11yResults) (u : string)
    (reason : option string) (b : Pa11yResults) :
  JS.truthy u = true → URL_parses u = true →
  runAxe u = rejected reason → pa11y u = fulfilled b →
  JS.truthy_opt (pa11y_error b) = false →
  Forall (λ i, type i ∈ pa11y_types) (pa11y_issues b) →
  ∃ results,
    performAccessibilityTest
      (Returned (Server.post_api_test URL_parses runAxe pa11y (Some u)).2)
      = Returned results
    ∧ violations results = map normalize (pa11y_issues b)
    ∧ passes results = default [] (pa11y_passes b)
    ∧ ∀ sev, sev ∈ ["critical"; "serious"; "moderate"] →
        displayed results sev = count_severity sev (violations results).
Proof.
  intros Hu Hp HA HB Herr Hty.
  rewrite post_api_test_scans by assumption. rewrite HA, HB.
  eexists. split; [reflexivity|]. split; [reflexivity|]. split; [reflexivity|].
  intros sev Hsev. cbn [Server.processed_axe Server.processed_pa11y].
  rewrite displayed_formatted. cbn [violations formattedResults axe_violations app].
  rewrite !elem_of_cons, elem_of_nil in Hsev.
  destruct Hsev as [-> | [-> | [-> | []]]].
  - rewrite (count_normalized "critical" "error") by done.
    unfold Server.summary, Server.axe_count, Server.pa11y_count.
    rewrite Herr. by simplify_map_eq.
  - rewrite (count_normalized "serious" "warning") by done.
    unfold Server.summary, Server.axe_count, Server.pa11y_count.
    rewrite Herr. by simplify_map_eq.
  - rewrite (count_normalized "moderate" "notice") by done.
    unfold Server.summary, Server.axe_count, Server.pa11y_count.
    rewrite Herr. by simplify_map_eq.
Qed.

Lemma axe_failure_keeps_pa11y_witness :
  ∃ results,
    performAccessibilityTest
      (Returned (Server.post_api_test has_scheme both_fail_axe (pa11y_of [h1_issue])
                   (Some "https://example.com")).2)
      = Returned results
    ∧ violations results = [normalize h1_issue]
    ∧ displayed results "serious" = 1.
Proof.
  destruct (axe_failure_keeps_pa11y_findings has_scheme both_fail_axe
              (pa11y_of [h1_issue]) "https://example.com" _ _
              eq_refl eq_refl eq_refl eq_refl eq_refl)
    as (results & Hrun & Hviol & _ & Hcount).
  { repeat constructor. }
  exists results. split; [exact Hrun|]. split; [exact Hviol|].
  rewrite Hcount, Hviol; [reflexivity|]. rewrite !elem_of_cons. auto.
Defined.

(** When pa11y fails and axe-core answers, no error is raised either:
    the report holds axe-core's violations and passes, unchanged and in
    order, and nothing else. *)
Theorem pa11y_failure_keeps_axe_findings
    (URL_parses : string → bool) (runAxe : string → Settled AxeResults)
    (pa11y : string → Settled Pa11yResults) (u : string)
    (reason : option string) (a : AxeResults) :
  JS.truthy u = true → URL_parses u = true →
  runAxe u = fulfilled a → pa11y u = rejected reason →
  Server.status (Server.post_api_test URL_parses runAxe pa11y (Some u)).2 = 200
  ∧ ∃ results,
      performAccessibilityTest
        (Returned (Server.post_api_test URL_parses runAxe pa11y (Some u)).2)
        = Returned results
      ∧ violations results = axe_violations a
      ∧ passes results = axe_passes a.
Proof.
  intros Hu Hp HA HB.
  rewrite post_api_test_scans by assumption. rewrite HA, HB.
  split; [reflexivity|].
  eexists. split; [reflexivity|].
  cbn [violations passes formattedResults Server.processed_axe
       Server.processed_pa11y pa11y_issues pa11y_passes map default].
  by rewrite !app_nil_r.
Qed.

Lemma pa11y_failure_keeps_axe_witness :
  ∃ results,
    performAccessibilityTest
      (Returned (Server.post_api_test has_scheme (axe_one image_alt_violation)
                   both_fail_pa11y (Some "https://example.com")).2)
      = Returned results
    ∧ violations results = [image_alt_violation].
Proof.
  destruct (pa11y_failure_keeps_axe_findings has_scheme (axe_one image_alt_violation)
              both_fail_pa11y "https://example.com" _ _
              eq_refl eq_refl eq_refl eq_refl)
    as (_ & results & Hrun & Hviol & _).
  exists results. split; [exact Hrun | exact Hviol].
Defined.

(** The runner inside the endpoint: when every navigation of a scan
    fails, the endpoint still answers 200; the [axe] entry of the report
    is the sentinel, and its [details] is the message of the third
    navigation error, or [Unknown error] when that error has none. *)
Theorem navigation_failure_reaches_report
    (URL_parses : string → bool) (p : Scanner.Puppeteer) (browser : bool)
    (pa11y : string → Settled Pa11yResults) (u : string)
    (e0 e1 e2 : option string) :
  JS.truthy u = true → URL_parses u = true →
  browser = true ∨ Scanner.launch p = Scanner.resolves →
  Scanner.newPage p = Scanner.resolves →
  Scanner.configure p = Scanner.resolves →
  Scanner.goto p 0 = Scanner.rejects e0 →
  Scanner.goto p 1 = Scanner.rejects e1 →
  Scanner.goto p 2 = Scanner.rejects e2 →
  ∃ summary,
    (Server.post_api_test URL_parses (λ url, (Scanner.runAxe p browser url).2)
       pa11y (Some u)).2
    = {| Server.status := 200;
         Server.body :=
           Server.Report
             {| axe_error := Some "Axe-core test failed";
                axe_details := Some (JS.or_string e2 "Unknown error");
                axe_violations := []; axe_passes := [] |}
             (Server.processed_pa11y (pa11y u)) summary |}.
Proof.
  intros Hu Hp Hstart Hpage Hconf H0 H1 H2.
  rewrite post_api_test_scans by assumption.
  rewrite (runAxe_three_failures p browser u e0 e1 e2) by assumption.
  by eexists.
Qed.

(** ** The credential endpoint and the remediation client *)

Lemma get_groq_key_configured (k : string) :
  JS.truthy k = true →
  KeyEndpoint.get_groq_key (Some k)
    = {| KeyEndpoint.status := 200; KeyEndpoint.body := KeyEndpoint.ApiKey k |}.
Proof. intros Hk. unfold KeyEndpoint.get_groq_key. cbn. by rewrite Hk. Qed.

(** A configured key makes the round trip: the endpoint answers 200 with
    that key, and [getAISolution] sends its completion requests with
    that key and with the prompt built from its arguments.  What it
    dispatches and returns depends on the completion service through
    the answers to that credential only, and when the stream for that
    credential and prompt completes, it returns the text streamed. *)
Theorem configured_key_reaches_client (k : string)
    (stream : string → string → Stream)
    (complete : string → string → Outcome (option string)) :
  JS.truthy k = true →
  KeyEndpoint.status (KeyEndpoint.get_groq_key (Some k)) = 200
  ∧ KeyEndpoint.body (KeyEndpoint.get_groq_key (Some k)) = KeyEndpoint.ApiKey k
  ∧ has_credential (world_of (Some k) stream complete) k
  ∧ (∀ stream' complete' issue description html,
       (∀ request, stream k request = stream' k request) →
       (∀ request, complete k request = complete' k request) →
       getAISolution (world_of (Some k) stream complete) issue description html
       = getAISolution (world_of (Some k) stream' complete') issue description html)
  ∧ (∀ issue description html cs,
       stream k (prompt issue description html)
         = {| chunks := cs; failure := None |} →
       getAISolution (world_of (Some k) stream complete) issue description html
       = (map (SetSolutions (issue +:+ "-" +:+ JS.substring0 20 description))
            (prefixes (map chunk_text cs)),
          Returned (concat_all (map chunk_text cs)))).
Proof.
  intros Hk. rewrite (get_groq_key_configured k Hk).
  assert (Hcred : ∀ s c, has_credential (world_of (Some k) s c) k).
  { intros s c. unfold has_credential, world_of.
    rewrite (get_groq_key_configured k Hk). eexists. by repeat split. }
  split; [reflexivity|]. split; [reflexivity|]. split; [apply Hcred|]. split.
  - intros stream' complete' issue description html Hs Hc.
    rewrite !(getAISolution_with_credential _ k) by apply Hcred.
    cbn zeta. cbn [create_stream create_complete world_of].
    by rewrite Hs, Hc.
  - intros issue description html cs Hstream.
    apply (streamed_states_are_prefixes _ k issue description html cs
             {| solutions := ∅; loadingSolutions := ∅ |} (Hcred _ _) Hstream).
Qed.

Lemma configured_key_witness :
  getAISolution
    (world_of (Some "gsk_test") (create_stream world_abc) (create_complete world_abc))
    "image-alt" "Images must have alternate text" None
  = ([SetSolutions "image-alt-Images must have alt" "A";
      SetSolutions "image-alt-Images must have alt" "AB";
      SetSolutions "image-alt-Images must have alt" "ABC"],
     Returned "ABC").
Proof.
  exact (proj2 (proj2 (proj2 (proj2
           (configured_key_reaches_client "gsk_test"
              (create_stream world_abc) (create_complete world_abc) eq_refl))))
           "image-alt" "Images must have alternate text" None
           [Some "A"; Some "B"; Some "C"] eq_refl).
Defined.

(** Without a configured key (unset or empty) the endpoint answers 500,
    and a remediation request then writes nothing while it runs, throws,
    and leaves the fixed error text in the entry of the node, whatever
    the completion service would have answered. *)
Theorem missing_key_stops_remediation (env : option string)
    (stream : string → string → Stream)
    (complete : string → string → Outcome (option string))
    (rendered : gmap string string) (σ : State) (violation : Violation)
    (nodeIndex : nat) :
  JS.truthy_opt env = false →
  JS.truthy_opt (rendered !! solutionKey violation nodeIndex) = false →
  let w := world_of env stream complete in
  KeyEndpoint.status (KeyEndpoint.get_groq_key env) = 500
  ∧ (∀ issue description html,
       getAISolution w issue description html
       = ([], Thrown "Failed to get AI solution: Failed to get Groq API key: 500"))
  ∧ solutions (run σ (handleGetSolution w rendered violation nodeIndex).1)
      !! solutionKey violation nodeIndex
    = Some "Error getting solution: Failed to get AI solution: Failed to get Groq API key: 500".
Proof.
  intros Henv Hfresh w.
  assert (Hkey : KeyEndpoint.get_groq_key env
                 = {| KeyEndpoint.status := 500;
                      KeyEndpoint.body :=
                        KeyEndpoint.Error "Groq API key not configured on server" |}).
  { unfold KeyEndpoint.get_groq_key. by rewrite Henv. }
  assert (Hclient : ∀ issue description html,
            getAISolution w issue description html
            = ([], Thrown "Failed to get AI solution: Failed to get Groq API key: 500")).
  { intros. unfold getAISolution, w, world_of. cbn [fetch_groq_key].
    rewrite Hkey. reflexivity. }
  split; [by rewrite Hkey|]. split; [exact Hclient|].
  rewrite handleGetSolution_effects by assumption. cbn zeta.
  rewrite Hclient. cbn. apply lookup_insert_eq.
Qed.

Lemma missing_key_witness :
  solutions
    (run {| solutions := ∅; loadingSolutions := ∅ |}
       (handleGetSolution
          (world_of None (create_stream world_abc) (create_complete world_abc))
          ∅ image_alt_violation 0).1)
    !! "image-alt-0"
  = Some "Error getting solution: Failed to get AI solution: Failed to get Groq API key: 500".
Proof.
  exact (proj2 (proj2 (missing_key_stops_remediation None
                         (create_stream world_abc) (create_complete world_abc)
                         ∅ {| solutions := ∅; loadingSolutions := ∅ |}
                         image_alt_violation 0 eq_refl eq_refl))).
Defined.

(** Every update [getAISolution] dispatches, on any path and whatever
    the services answer, goes to the one key made of the rule id and the
    first twenty characters of the description. *)
Lemma getAISolution_writes_one_key (w : World) (issue description : string)
    (html : option string) :
  Forall (λ e, ∃ value,
            e = SetSolutions (issue +:+ "-" +:+ JS.substring0 20 description) value)
    (getAISolution w issue description html).1.
Proof.
  unfold getAISolution.
  destruct (fetch_groq_key w) as [r|m]; [|by constructor].
  rewrite bind_returned.
  destruct (ok r); cbn [negb]; [|by constructor].
  destruct (json_apiKey r) as [apiKey|m]; [|by constructor].
  rewrite bind_returned.
  destruct (JS.truthy_opt apiKey); cbn [negb]; [|by constructor].
  rewrite stream_loop_trace.
  set (key := issue +:+ "-" +:+ JS.substring0 20 description).
  assert (Hloop : ∀ (f : nat → string) l,
            Forall (λ e, ∃ value, e = SetSolutions key value)
              (map (λ k, SetSolutions key (f k)) l)).
  { intros f l. apply Forall_fmap, Forall_true. intros k. cbn. by eexists. }
  destruct (failure _) as [message|]; cbn [try_catch fst]; [|apply Hloop].
  destruct (create_complete w _ _) as [response|m]; cbn.
  - apply Forall_app. split; [apply Hloop|].
    constructor; [by eexists|constructor].
  - rewrite ?app_nil_r. apply Hloop.
Qed.

(** ** The remediation cache, continued *)

Lemma run_untouched (k : string) (es : list Effect) :
  Forall (λ e, effect_key e ≠ k) es →
  ∀ σ, solutions (run σ es) !! k = solutions σ !! k
       ∧ loadingSolutions (run σ es) !! k = loadingSolutions σ !! k.
Proof.
  induction 1 as [|e es He _ IH]; intros σ; [done|].
  change (run σ (e :: es)) with (run (apply σ e) es).
  destruct (IH (apply σ e)) as [-> ->].
  destruct e as [key value|key value]; cbn in *; by rewrite ?lookup_insert_ne.
Qed.

Lemma handleGetSolution_keys (w : World) (rendered : gmap string string)
    (violation : Violation) (nodeIndex : nat) :
  Forall (λ e, effect_key e = solutionKey violation nodeIndex
               ∨ effect_key e = v_id violation +:+ "-"
                                +:+ JS.substring0 20 (v_description violation))
    (handleGetSolution w rendered violation nodeIndex).1.
Proof.
  destruct (JS.truthy_opt (rendered !! solutionKey violation nodeIndex)) eqn:Hc.
  - rewrite handleGetSolution_cached by assumption. constructor.
  - rewrite handleGetSolution_effects by assumption. cbn zeta. cbn [fst].
    constructor; [by left|]. apply Forall_app. split.
    + eapply Forall_impl; [apply getAISolution_writes_one_key|].
      intros e [value ->]. by right.
    + repeat constructor; by left.
Qed.

(** A request touches two keys at most: the entry of its node, and the
    key the client streams to.  Every other entry of the cache and every
    other loading flag is left as it was. *)
Theorem handleGetSolution_frame (w : World) (rendered : gmap string string)
    (σ : State) (violation : Violation) (nodeIndex : nat) (k : string) :
  k ≠ solutionKey violation nodeIndex →
  k ≠ v_id violation +:+ "-" +:+ JS.substring0 20 (v_description violation) →
  let es := (handleGetSolution w rendered violation nodeIndex).1 in
  solutions (run σ es) !! k = solutions σ !! k
  ∧ loadingSolutions (run σ es) !! k = loadingSolutions σ !! k.
Proof.
  intros Hk Hk' es. apply run_untouched.
  eapply Forall_impl; [apply handleGetSolution_keys|].
  intros e [-> | ->]; congruence.
Qed.

Lemma handleGetSolution_frame_witness :
  solutions
    (run {| solutions := {["region-0" := "kept"]}; loadingSolutions := ∅ |}
       (handleGetSolution world_abc ∅ image_alt_violation 0).1)
    !! "region-0" = Some "kept".
Proof.
  rewrite (proj1 (handleGetSolution_frame world_abc ∅
                    {| solutions := {["region-0" := "kept"]}; loadingSolutions := ∅ |}
                    image_alt_violation 0 "region-0"
                    ltac:(by vm_compute) ltac:(by vm_compute))).
  reflexivity.
Defined.

(** The key the client streams to can be the entry of another node:
    for a violation whose description is ["1"], a request for node 0
    overwrites the entry of node 1. *)
Lemma streamed_text_can_overwrite_a_sibling :
  solutions
    (run {| solutions := {["list-1" := "kept"]}; loadingSolutions := ∅ |}
       (handleGetSolution world_abc ∅ colliding_violation 0).1)
    !! solutionKey colliding_violation 1 = Some "ABC".
Proof. by vm_compute. Qed.

Lemma history_app (σ : State) (es es' : list Effect) :
  history σ (es ++ es') = history σ es ++ history (run σ es) es'.
Proof.
  revert σ. induction es as [|e es IH]; intros σ; [reflexivity|].
  cbn [app history]. by rewrite IH.
Qed.

Lemma history_length (σ : State) (es : list Effect) :
  length (history σ es) = length es.
Proof. revert σ. induction es as [|e es IH]; intros σ; cbn; [done|by rewrite IH]. Qed.

Lemma history_keeps_loading (k : string) (x : option bool) (es : list Effect) :
  Forall (λ e, ∃ key value, e = SetSolutions key value) es →
  ∀ σ, loadingSolutions σ !! k = x →
       loadingSolutions (run σ es) !! k = x
       ∧ Forall (λ σ', loadingSolutions σ' !! k = x) (history σ es).
Proof.
  induction 1 as [|e es (key & value & ->) _ IH]; intros σ Hσ; [by split; [|constructor]|].
  change (run σ (SetSolutions key value :: es))
    with (run (apply σ (SetSolutions key value)) es).
  cbn [history].
  destruct (IH (apply σ (SetSolutions key value)) Hσ) as [Hrun Hall].
  split; [exact Hrun|]. by constructor.
Qed.

(** A request that starts marks its node as loading before anything
    else, keeps it so in every state the view can render until the last,
    and always ends with the mark cleared, whether the client returned
    or threw. *)
Theorem loading_flag_brackets_request (w : World) (rendered : gmap string string)
    (σ : State) (violation : Violation) (nodeIndex : nat) :
  JS.truthy_opt (rendered !! solutionKey violation nodeIndex) = false →
  let key := solutionKey violation nodeIndex in
  let es := (handleGetSolution w rendered violation nodeIndex).1 in
  loadingSolutions (run σ es) !! key = Some false
  ∧ Forall (λ σ', loadingSolutions σ' !! key = Some true)
      (take (length es - 1) (history σ es)).
Proof.
  intros Hfresh key es. subst es.
  rewrite handleGetSolution_effects by assumption. cbn zeta. cbn [fst]. fold key.
  set (client := getAISolution _ _ _ _).
  set (σ1 := apply σ (SetLoadingSolutions key true)).
  set (mid := client.1 ++ [SetSolutions key (stored_text client.2)]).
  assert (Hes : client.1 ++ [SetSolutions key (stored_text client.2);
                             SetLoadingSolutions key false]
                = mid ++ [SetLoadingSolutions key false]).
  { subst mid. by rewrite <- app_assoc. }
  rewrite Hes.
  assert (Hmid : Forall (λ e, ∃ k v, e = SetSolutions k v) mid).
  { subst mid. apply Forall_app. split.
    - eapply Forall_impl; [apply getAISolution_writes_one_key|].
      intros e [value ->]. by do 2 eexists.
    - constructor; [by do 2 eexists|constructor]. }
  assert (Hσ1 : loadingSolutions σ1 !! key = Some true)
    by (subst σ1; cbn; apply lookup_insert_eq).
  destruct (history_keeps_loading key (Some true) mid Hmid σ1 Hσ1) as [_ Hall].
  split.
  - change (run σ (SetLoadingSolutions key true :: mid ++ [SetLoadingSolutions key false]))
      with (run σ1 (mid ++ [SetLoadingSolutions key false])).
    rewrite run_app. cbn. apply lookup_insert_eq.
  - cbn [history]. fold σ1. rewrite history_app. cbn [length].
    rewrite length_app. cbn [length].
    replace (S (length mid + 1) - 1) with (S (length mid)) by lia.
    cbn [take]. constructor; [exact Hσ1|].
    rewrite <- (history_length σ1 mid), take_app_length. exact Hall.
Qed.

Lemma loading_flag_witness :
  loadingSolutions
    (run {| solutions := ∅; loadingSolutions := ∅ |}
       (handleGetSolution world_down ∅ image_alt_violation 0).1)
    !! "image-alt-0" = Some false.
Proof.
  exact (proj1 (loading_flag_brackets_request world_down ∅
                  {| solutions := ∅; loadingSolutions := ∅ |}
                  image_alt_violation 0 eq_refl)).
Defined.

Lemma handleGetSolution_stores (w : World) (rendered : gmap string string)
    (σ : State) (violation : Violation) (nodeIndex : nat) :
  JS.truthy_opt (rendered !! solutionKey violation nodeIndex) = false →
  solutions (run σ (handleGetSolution w rendered violation nodeIndex).1)
    !! solutionKey violation nodeIndex
  = Some (stored_text (getAISolution w (v_id violation) (v_description violation)
                         (node_html violation nodeIndex)).2).
Proof.
  intros Hfresh. rewrite handleGetSolution_effects by assumption.
  cbn zeta. cbn [fst].
  change (run σ (?e :: ?es)) with (run (apply σ e) es).
  rewrite run_app. cbn. apply lookup_insert_eq.
Qed.

(** Once a request has left a non-empty text in its entry, be it the
    solution or the error text of a failed request, another click on the
    same node does nothing, whatever the services would now answer.  An
    empty solution leaves the entry falsy, and the next click runs the
    whole request again. *)
Theorem answered_request_not_repeated (w w' : World) (rendered : gmap string string)
    (σ : State) (violation : Violation) (nodeIndex : nat) :
  JS.truthy_opt (rendered !! solutionKey violation nodeIndex) = false →
  let client := getAISolution w (v_id violation) (v_description violation)
                  (node_html violation nodeIndex) in
  let after := solutions (run σ (handleGetSolution w rendered violation nodeIndex).1) in
  (stored_text client.2 ≠ "" → handleGetSolution w' after violation nodeIndex = ret tt)
  ∧ (∀ message, client.2 = Thrown message →
       handleGetSolution w' after violation nodeIndex = ret tt)
  ∧ (client.2 = Returned "" →
       handleGetSolution w' after violation nodeIndex
       = handleGetSolution w' rendered violation nodeIndex).
Proof.
  intros Hfresh client after.
  assert (Hlook : after !! solutionKey violation nodeIndex
                  = Some (stored_text client.2))
    by (subst after; by apply handleGetSolution_stores).
  assert (Hne : stored_text client.2 ≠ "" →
                handleGetSolution w' after violation nodeIndex = ret tt).
  { intros Hne. apply handleGetSolution_cached. rewrite Hlook.
    cbn. by destruct (stored_text client.2). }
  split; [exact Hne|]. split.
  - intros message Hthrown. apply Hne. by rewrite Hthrown.
  - intros Hempty. rewrite !handleGetSolution_effects; [done|done|].
    by rewrite Hlook, Hempty.
Qed.

Lemma answered_request_witness :
  handleGetSolution world_abc
    (solutions
       (run {| solutions := ∅; loadingSolutions := ∅ |}
          (handleGetSolution world_down ∅ image_alt_violation 0).1))
    image_alt_violation 0 = ret tt.
Proof.
  refine (proj1 (proj2 (answered_request_not_repeated world_down world_abc ∅
                          {| solutions := ∅; loadingSolutions := ∅ |}
                          image_alt_violation 0 eq_refl))
            "Failed to get AI solution: 503 Service Unavailable" _).
  reflexivity.
Defined.

Lemma to_uint_nonnil (n : nat) : Nat.to_uint n ≠ Decimal.Nil.
Proof.
  intros H. pose proof (Unsigned.of_to n) as Hn. rewrite H in Hn.
  cbn in Hn. subst n. discriminate H.
Qed.

Lemma of_nat_inj (n m : nat) : JS.of_nat n = JS.of_nat m → n = m.
Proof.
  unfold JS.of_nat. intros H.
  apply (f_equal NilZero.uint_of_string) in H.
  rewrite !NilZero.usu in H by apply to_uint_nonnil.
  injection H as H. by apply Unsigned.to_uint_inj.
Qed.

Lemma digits_have_no_dash (d : Decimal.uint) :
  has_dash (NilEmpty.string_of_uint d) = false.
Proof. induction d; cbn; auto. Qed.

Lemma of_nat_has_no_dash (n : nat) : has_dash (JS.of_nat n) = false.
Proof.
  unfold JS.of_nat, NilZero.string_of_uint.
  destruct (Nat.to_uint n); try reflexivity; apply digits_have_no_dash.
Qed.

(** A key is cut at its last hyphen in one way only. *)
Lemma dash_split_inj (a a' d d' : string) :
  has_dash d = false → has_dash d' = false →
  a +:+ "-" +:+ d = a' +:+ "-" +:+ d' → a = a' ∧ d = d'.
Proof.
  assert (Hnil : ∀ s, "" +:+ s = s) by reflexivity.
  assert (Hcons : ∀ c a s, String c a +:+ s = String c (a +:+ s)) by reflexivity.
  intros Hd Hd'. revert a'. induction a as [|c a IH]; intros [|c' a'] H;
    repeat rewrite ?Hnil, ?Hcons in H.
  - injection H as H. by split.
  - injection H as _ H. assert (Hx := has_dash_app a' d').
    change (has_dash (a' +:+ String "-" d') = true) in Hx. congruence.
  - injection H as _ H. assert (Hx := has_dash_app a d).
    change (has_dash (a +:+ String "-" d) = true) in Hx. congruence.
  - injection H as Hc H. subst c'. destruct (IH a' H) as [-> ->]. by split.
Qed.

(** Two nodes have the same cache entry exactly when they belong to
    violations with the same rule id and have the same index: the nodes
    of one violation never share an entry, and neither do violations
    with different rule ids. *)
Theorem solutionKey_inj (v v' : Violation) (i j : nat) :
  solutionKey v i = solutionKey v' j ↔ v_id v = v_id v' ∧ i = j.
Proof.
  unfold solutionKey. split.
  - intros H.
    destruct (dash_split_inj _ _ _ _ (of_nat_has_no_dash i) (of_nat_has_no_dash j) H)
      as [Hid Hn].
    split; [exact Hid|by apply of_nat_inj].
  - by intros [-> ->].
Qed.

(** The markup sent to the remediation service for a node is the markup
    shown in the box of that node, whenever that box shows any; and for
    an index beyond the nodes of the violation no access fails: the
    violation's own [context] is sent instead. *)
Theorem node_html_is_displayed_html (rendered : gmap string string)
    (violation : Violation) :
  (∀ i item,
     node_items rendered violation !! i = Some item →
     JS.truthy_opt (item_html item) = true →
     node_html violation i = item_html item)
  ∧ (∀ ns i,
       v_nodes violation = Some ns → length ns ≤ i →
       node_html violation i = v_context violation).
Proof.
  split.
  - intros i item Hitem Hshown. unfold node_items in Hitem.
    apply list_lookup_imap_Some in Hitem as (node & Hnode & ->).
    cbn [item_html node_item] in *. unfold node_html, display_nodes in *.
    destruct (v_nodes violation) as [ns|]; cbn [mbind option_bind] in *.
    + rewrite list_lookup_fmap in Hnode.
      destruct (ns !! i) as [n|]; [|done].
      injection Hnode as <-. cbn [of_node nv_html nv_context mbind option_bind] in *.
      unfold JS.or_opt in *.
      destruct (JS.truthy_opt (html n)) eqn:Hn; [reflexivity|].
      cbn in Hshown. discriminate.
    + destruct i; [|done]. injection Hnode as <-. reflexivity.
  - intros ns i Hns Hi. unfold node_html. rewrite Hns. cbn [mbind option_bind].
    by rewrite lookup_ge_None_2.
Qed.

(** ** Submitting the form *)

Lemma run_ui_app (σ : Page) (es es' : list UiEffect) :
  run_ui σ (es ++ es') = run_ui (run_ui σ es) es'.
Proof. apply foldl_app. Qed.

(** With no address nothing happens.  Otherwise, whatever page the
    submission starts from, it ends with the spinner off and with either
    a report and no error banner, or the one fixed error text and no
    report: the report of an earlier scan is never left beside an error,
    and the reason of the failure is never shown. *)
Theorem handleSubmit_outcome (fetch_test : string → Outcome Server.Response)
    (url : string) (σ : Page) :
  let after := run_ui σ (handleSubmit fetch_test url) in
  (url = "" → handleSubmit fetch_test url = [])
  ∧ (url ≠ "" →
     isLoading after = false
     ∧ match performAccessibilityTest (fetch_test url) with
       | Returned testResults =>
           results after = Some testResults ∧ error after = ""
       | Thrown _ =>
           results after = None
           ∧ error after
             = "Failed to test the website. Please check the URL and try again."
       end).
Proof.
  cbn zeta. split; [by intros ->|].
  intros Hurl. unfold handleSubmit, performAccessibilityTest_ui.
  destruct url as [|c url]; [done|]. cbn [JS.truthy negb].
  by destruct (performAccessibilityTest _).
Qed.



(** ** Styling *)

(** The icon, the border and the badge of a violation always agree: two
    impacts get the same icon exactly when they get the same border and
    exactly when they get the same badge.  Every impact other than
    [critical], [serious] and [moderate], a missing one included, is
    styled like [minor]. *)
Theorem severity_styles_agree (impact impact' : option string) :
  (getSeverityIcon impact = getSeverityIcon impact'
   ↔ getSeverityColor impact = getSeverityColor impact')
  ∧ (getSeverityColor impact = getSeverityColor impact'
     ↔ badge_class impact = badge_class impact')
  ∧ (impact ∉ [Some "critical"; Some "serious"; Some "moderate"] →
     getSeverityIcon impact = getSeverityIcon (Some "minor")
     ∧ getSeverityColor impact = getSeverityColor (Some "minor")
     ∧ badge_class impact = badge_class (Some "minor")).
Proof.
  split; [|split].
  - unfold getSeverityIcon, getSeverityColor.
    repeat case_decide; split; intros; congruence.
  - unfold getSeverityColor, badge_class.
    repeat case_decide; split; intros; congruence.
  - intros Hnot. rewrite !not_elem_of_cons in Hnot.
    destruct Hnot as (H1 & H2 & H3 & _).
    unfold getSeverityIcon, getSeverityColor, badge_class.
    repeat split; repeat case_decide; congruence.
Qed.

(** A pa11y issue is never styled like a minor violation, whatever its
    type: it gets the critical, the serious or the moderate border. *)
Theorem pa11y_issue_never_styled_minor (issue : Issue) :
  getSeverityColor (v_impact (normalize issue)) ≠ getSeverityColor (Some "minor")
  ∧ (type issue ∉ ["error"; "warning"] →
     getSeverityColor (v_impact (normalize issue)) = getSeverityColor (Some "moderate")).
Proof.
  unfold normalize. cbn [v_impact]. split.
  - repeat case_decide; by vm_compute.
  - intros Hnot. rewrite !not_elem_of_cons in Hnot. destruct Hnot as (H1 & H2 & _).
    repeat case_decide; congruence.
Qed.

(** ** Audience icons *)




(** ** Worked runs of the earlier lemmas *)

Lemma navigation_failure_witness :
  ∃ summary,
    (Server.post_api_test has_scheme
       (λ url, (Scanner.runAxe unreachable_puppeteer false url).2)
       (pa11y_of [h1_issue]) (Some "https://example.com")).2
    = {| Server.status := 200;
         Server.body :=
           Server.Report
             {| axe_error := Some "Axe-core test failed";
                axe_details := Some "net::ERR_NAME_NOT_RESOLVED #2";
                axe_violations := []; axe_passes := [] |}
             (Server.processed_pa11y (pa11y_of [h1_issue] "https://example.com"))
             summary |}.
Proof.
  exact (navigation_failure_reaches_report has_scheme unreachable_puppeteer false
           (pa11y_of [h1_issue]) "https://example.com" _ _ _
           eq_refl eq_refl (or_intror eq_refl) eq_refl eq_refl
           eq_refl eq_refl eq_refl).
Defined.

Lemma summary_counter_witness :
  displayed
    (formattedResults
       {| axe_error := None; axe_details := None;
          axe_violations := [image_alt_violation]; axe_passes := [] |}
       {| pa11y_error := None; pa11y_details := None;
          pa11y_issues := [h1_issue]; pa11y_passes := None |}
       (Server.summary
          {| axe_error := None; axe_details := None;
             axe_violations := [image_alt_violation]; axe_passes := [] |}
          {| pa11y_error := None; pa11y_details := None;
             pa11y_issues := [h1_issue]; pa11y_passes := None |}))
    "serious" = 1.
Proof.
  rewrite (summary_counter
             {| axe_error := None; axe_details := None;
                axe_violations := [image_alt_violation]; axe_passes := [] |}
             {| pa11y_error := None; pa11y_details := None;
                pa11y_issues := [h1_issue]; pa11y_passes := None |}
             "serious" "warning" eq_refl eq_refl eq_refl).
  - reflexivity.
  - repeat constructor.
Defined.

Lemma getAISolution_fallback_witness :
  getAISolution world_broken_stream "image-alt" "Images must have alternate text" None
  = ([SetSolutions "image-alt-Images must have alt" "Add an";
      SetSolutions "image-alt-Images must have alt" "Add an alt attribute."],
     Returned "Add an alt attribute.").
Proof.
  assert (Hcred : has_credential world_broken_stream "gsk_test")
    by (eexists; repeat split).
  exact (proj1 (getAISolution_fallback world_broken_stream "gsk_test" "image-alt"
                  "Images must have alternate text" None [Some "Add an"]
                  "socket hang up" (Some "Add an alt attribute.")
                  Hcred eq_refl eq_refl)).
Defined.

Lemma getAISolution_both_fail_witness :
  (getAISolution world_down "image-alt" "Images must have alternate text" None).2
  = Thrown "Failed to get AI solution: 503 Service Unavailable".
Proof.
  assert (Hcred : has_credential world_down "gsk_test")
    by (eexists; repeat split).
  exact (getAISolution_both_fail world_down "gsk_test" "image-alt"
           "Images must have alternate text" None [Some "Add"]
           "socket hang up" "503 Service Unavailable" Hcred eq_refl eq_refl).
Defined.

(** ** Requests that are turned away *)




(** ** What the view shows during a stream *)

(** While a request runs, the entry the view reads changes once only,
    when the request ends: whatever the client streams goes to its own
    key, so none of it is shown before the end (unless the two keys
    happen to be the same string). *)
Lemma entry_written_once (w : World) (rendered : gmap string string)
    (violation : Violation) (nodeIndex : nat) :
  JS.truthy_opt (rendered !! solutionKey violation nodeIndex) = false →
  solutionKey violation nodeIndex
    ≠ v_id violation +:+ "-" +:+ JS.substring0 20 (v_description violation) →
  observed (solutionKey violation nodeIndex)
    (handleGetSolution w rendered violation nodeIndex).1
  = [stored_text (getAISolution w (v_id violation) (v_description violation)
                    (node_html violation nodeIndex)).2].
Proof.
  intros Hfresh Hne. rewrite handleGetSolution_effects by assumption.
  cbn zeta. cbn [fst]. set (client := getAISolution _ _ _ _).
  unfold observed. cbn [omap list_omap]. rewrite omap_app.
  assert (Hmid : omap (λ e, match e with
                            | SetSolutions k value =>
                                if decide (k = solutionKey violation nodeIndex)
                                then Some value else None
                            | _ => None
                            end) client.1 = []).
  { pose proof (getAISolution_writes_one_key w (v_id violation)
                  (v_description violation) (node_html violation nodeIndex)) as Hall.
    fold client in Hall. induction Hall as [|e es [value ->] _ IH]; [reflexivity|].
    cbn. rewrite decide_False by congruence. exact IH. }
  rewrite Hmid. cbn. by rewrite decide_True.
Qed.

(** C8 at the input on which it fails: the stream delivers ["A"], ["B"],
    ["C"] for the first node of an [image-alt] violation.  The client
    returns ["ABC"], but it stores the prefixes under
    [image-alt-Images must have alt]; the entry the view reads,
    [image-alt-0], is empty in every state until the request ends and
    then holds ["ABC"]: no prefix is ever shown. *)
Lemma streamed_prefixes_never_shown :
  (getAISolution world_abc "image-alt" "Images must have alternate text"
     (node_html image_alt_violation 0)).2 = Returned "ABC"
  ∧ observed "image-alt-Images must have alt"
      (handleGetSolution world_abc ∅ image_alt_violation 0).1 = ["A"; "AB"; "ABC"]
  ∧ observed (solutionKey image_alt_violation 0)
      (handleGetSolution world_abc ∅ image_alt_violation 0).1 = ["ABC"]
  ∧ map (λ σ', item_solution
                 (node_item (solutions σ') image_alt_violation 0
                    (of_node {| target := Some "img"; html := Some "<img src=a.png>" |})))
      (history {| solutions := ∅; loadingSolutions := ∅ |}
         (handleGetSolution world_abc ∅ image_alt_violation 0).1)
    = [None; None; None; None; Some "ABC"; Some "ABC"].
Proof. repeat split; by vm_compute. Qed.
